(** * neurogen: multiresolution mesh decomposition

    A shallow embedding of [src/neurogen/mesh.py] and
    [src/neurogen/encoder.py]: the vertex quantizer, the z-order
    comparison, mesh rescaling, the density (adaptive) level table, and
    the full-octree and density decompositions with the manifest and
    fragment files they write.

    Conventions.
    - A float64 is an [npfloat]: a rational or one of the IEEE special
      values.  Every arithmetic operation rounds its exact result to
      binary64 with [round64]: 53 significant bits, round to nearest,
      ties to even, gradual underflow, overflow to an infinity.  The
      special values follow IEEE/numpy (division by zero gives an
      infinity or NaN, it does not raise).  Signed zeros are not
      modelled: there is one zero, and it counts as positive zero.
    - A numpy int64 is a [Z] wrapped by [int64]; a Python int is a [Z].
    - A byte is a [Z] in [0, 256).
    - trimesh, the Draco backend and numpy's float32 encoding are
      collaborators: fields of the class [Collaborators].
    - The Python code only ever writes to the file system, so a run is a
      value of [IO]: the list of file-system events it performed, and
      how it ended.  [exec_events] replays events on a file system. *)

From Stdlib Require Import ZArith QArith Qround Qpower Qreduction Qcanon.
From Stdlib Require Import Lia Lqa List Ascii String.
From stdpp Require Import gmap strings list fin_maps.

#[local] Open Scope Z_scope.

(** ** Python exceptions and results *)

Inductive exn : Type :=
  | AssertionError
  | ValueError
  | TypeError
  | KeyError
  | IndexError
  | StructError
  | ExternalError (who : string).

Inductive result (A : Type) : Type :=
  | Ok (a : A)
  | Raise (e : exn).
Arguments Ok {A} a.
Arguments Raise {A} e.

Definition rbind {A B} (r : result A) (f : A → result B) : result B :=
  match r with
  | Ok a => f a
  | Raise e => Raise e
  end.

(** ** float64 values *)

Module NpFloat.

Inductive npfloat : Type :=
  | Fin (q : Q)
  | PInf
  | NInf
  | NaN.

Definition Qlt_bool (a b : Q) : bool := negb (Qle_bool b a).

(** *** Rounding to binary64 *)

(** The largest [k] with [2^k <= n/d]. *)
Definition Qlog2 (n d : positive) : Z :=
  let l := Z.log2 (Z.pos n) - Z.log2 (Z.pos d) in
  if (if 0 <=? l then Z.pos d * 2 ^ l <=? Z.pos n
      else Z.pos d <=? Z.pos n * 2 ^ (- l))
  then l else l - 1.

(** The integer nearest to [n/d], a tie going to the even one
    ([0 <= n] and [0 < d]). *)
Definition div_nearest_even (n d : Z) : Z :=
  let q := n / d in
  match 2 * (n mod d) ?= d with
  | Lt => q
  | Gt => q + 1
  | Eq => if Z.even q then q else q + 1
  end.

(** [m * 2^e] as a reduced fraction. *)
Definition Qscale2 (m e : Z) : Q :=
  if 0 <=? e then inject_Z (m * 2 ^ e)
  else Qred (Qmake m (Z.to_pos (2 ^ (- e)))).

(** The binary64 value nearest to a positive [n/d].  With [n/d] in
    [2^k, 2^(k+1)) the representable values around it are the multiples
    of the quantum [2^e], where [e = k - 52], and never less than
    [-1074] (subnormal values); the mantissa [m] is [(n/d) / 2^e]
    rounded to the nearest integer, and the result [m * 2^e] overflows
    when it is [2^1024] or more. *)
Definition quantum (n d : positive) : Z := Z.max (Qlog2 n d - 52) (-1074).

Definition mantissa (n d : positive) : Z :=
  let e := quantum n d in
  if 0 <=? e then div_nearest_even (Z.pos n) (Z.pos d * 2 ^ e)
  else div_nearest_even (Z.pos n * 2 ^ (- e)) (Z.pos d).

(** [None] on overflow. *)
Definition round_magnitude (n d : positive) : option Q :=
  let e := quantum n d in
  let m := mantissa n d in
  if (0 <=? e) && (2 ^ 1024 <=? m * 2 ^ e) then None
  else Some (Qscale2 m e).

(** Rounding to nearest, ties to even. *)
Definition round64 (q : Q) : npfloat :=
  match Qnum q with
  | Z0 => Fin 0
  | Zpos n =>
      match round_magnitude n (Qden q) with
      | Some r => Fin r
      | None => PInf
      end
  | Zneg n =>
      match round_magnitude n (Qden q) with
      | Some r => Fin (- r)
      | None => NInf
      end
  end.

(** An integer converted to float64. *)
Definition of_Z (z : Z) : npfloat := round64 (inject_Z z).

Definition fneg (a : npfloat) : npfloat :=
  match a with
  | Fin q => Fin (- q)
  | PInf => NInf
  | NInf => PInf
  | NaN => NaN
  end.

Definition fadd (a b : npfloat) : npfloat :=
  match a, b with
  | NaN, _ | _, NaN => NaN
  | Fin x, Fin y => round64 (x + y)
  | PInf, NInf | NInf, PInf => NaN
  | PInf, _ | _, PInf => PInf
  | NInf, _ | _, NInf => NInf
  end.

Definition fsub (a b : npfloat) : npfloat := fadd a (fneg b).

(** The sign of a value that is not NaN: -1, 0 or 1. *)
Definition fsign (a : npfloat) : Z :=
  match a with
  | Fin q => if Qlt_bool 0 q then 1 else if Qlt_bool q 0 then -1 else 0
  | PInf => 1
  | NInf => -1
  | NaN => 0
  end.

Definition inf_of_sign (s : Z) : npfloat :=
  if 0 <? s then PInf else if s <? 0 then NInf else NaN.

Definition fmul (a b : npfloat) : npfloat :=
  match a, b with
  | NaN, _ | _, NaN => NaN
  | Fin x, Fin y => round64 (x * y)
  | _, _ => inf_of_sign (fsign a * fsign b)
  end.

Definition fdiv (a b : npfloat) : npfloat :=
  match a, b with
  | NaN, _ | _, NaN => NaN
  | Fin x, Fin y =>
      if Qeq_bool y 0 then inf_of_sign (fsign a) else round64 (x / y)
  | Fin _, _ => Fin 0
  | _, Fin y => if Qeq_bool y 0 then a else inf_of_sign (fsign a * fsign b)
  | _, _ => NaN
  end.

(** Comparisons: every comparison with NaN is false. *)
Definition fle (a b : npfloat) : bool :=
  match a, b with
  | NaN, _ | _, NaN => false
  | NInf, _ | _, PInf => true
  | Fin x, Fin y => Qle_bool x y
  | _, _ => false
  end.

Definition flt (a b : npfloat) : bool :=
  match a, b with
  | NaN, _ | _, NaN => false
  | _, _ => negb (fle b a)
  end.

Definition fge (a b : npfloat) : bool := fle b a.

Definition feq (a b : npfloat) : bool := fle a b && fle b a.

(** [np.maximum] and [np.minimum] propagate NaN. *)
Definition fmaximum (a b : npfloat) : npfloat :=
  match a, b with
  | NaN, _ | _, NaN => NaN
  | _, _ => if fle a b then b else a
  end.

Definition fminimum (a b : npfloat) : npfloat :=
  match a, b with
  | NaN, _ | _, NaN => NaN
  | _, _ => if fle a b then a else b
  end.

(** [a // b] on floats ([np.floor_divide]). *)
Definition ffloor_divide (a b : npfloat) : npfloat :=
  match a, b with
  | Fin x, Fin y =>
      if Qeq_bool y 0 then inf_of_sign (fsign a)
      else round64 (inject_Z (Qfloor (x / y)))
  | Fin x, PInf => if Qlt_bool x 0 then Fin (-1) else Fin 0
  | Fin x, NInf => if Qlt_bool 0 x then Fin (-1) else Fin 0
  | _, _ => NaN
  end.

Definition is_nan (a : npfloat) : bool :=
  match a with NaN => true | _ => false end.

Definition is_finite (a : npfloat) : bool :=
  match a with Fin _ => true | _ => false end.

(** Truncation toward zero. *)
Definition Qtrunc (q : Q) : Z := Z.quot (Qnum q) (Z.pos (Qden q)).

(** [x.astype(np.uint32)] for a float64 [x].  The C conversion is
    undefined on NaN and the infinities; [nonfinite] is what the
    platform yields there. *)
Definition astype_uint32 (nonfinite : Z) (a : npfloat) : Z :=
  match a with
  | Fin q => Qtrunc q mod 2 ^ 32
  | _ => nonfinite
  end.

End NpFloat.
Export NpFloat.

(** ** Vectors, meshes, integers and bytes *)

Definition vec3 : Type := npfloat * npfloat * npfloat.

Definition vmap (f : npfloat → npfloat) (v : vec3) : vec3 :=
  let '(x, y, z) := v in (f x, f y, f z).

Definition vzip (f : npfloat → npfloat → npfloat) (a b : vec3) : vec3 :=
  let '(x, y, z) := a in
  let '(x', y', z') := b in (f x x', f y y', f z z').

Inductive axis : Type := AxX | AxY | AxZ.

Definition coord (ax : axis) (v : vec3) : npfloat :=
  let '(x, y, z) := v in
  match ax with AxX => x | AxY => y | AxZ => z end.

Definition vec3_of_Z (x y z : Z) : vec3 := (of_Z x, of_Z y, of_Z z).

Definition vlist (v : vec3) : list npfloat :=
  let '(x, y, z) := v in [x; y; z].

Record Mesh : Type := mkMesh {
  vertices : list vec3;
  faces : list (Z * Z * Z)
}.

Definition with_vertices (m : Mesh) (vs : list vec3) : Mesh :=
  {| vertices := vs; faces := faces m |}.

(** [arr.max(axis=0)] and [arr.min(axis=0)] of an N x 3 array: numpy
    raises ValueError on a zero-size array. *)
Definition array_max (vs : list vec3) : result vec3 :=
  match vs with
  | [] => Raise ValueError
  | v :: rest => Ok (fold_left (vzip fmaximum) rest v)
  end.

Definition array_min (vs : list vec3) : result vec3 :=
  match vs with
  | [] => Raise ValueError
  | v :: rest => Ok (fold_left (vzip fminimum) rest v)
  end.

(** Two's complement wrap of numpy's int64. *)
Definition int64 (z : Z) : Z := (z + 2 ^ 63) mod 2 ^ 64 - 2 ^ 63.

Definition byte : Type := Z.

(** [arr.astype('<I').tobytes()] of one integer: four little-endian
    bytes of the value modulo 2^32. *)
Definition le_u32 (n : Z) : list byte :=
  [Z.land n 255;
   Z.land (Z.shiftr n 8) 255;
   Z.land (Z.shiftr n 16) 255;
   Z.land (Z.shiftr n 24) 255].

Definition le_u32s (ns : list Z) : list byte := flat_map le_u32 ns.

(** [struct.pack('<I', n)]: struct.error outside [0, 2^32). *)
Definition struct_pack_I (n : Z) : result (list byte) :=
  if (0 <=? n) && (n <? 2 ^ 32) then Ok (le_u32 n) else Raise StructError.


(** [range(0, n)] and [np.arange(0, n)]. *)
Definition range (n : Z) : list Z := map Z.of_nat (seq 0 (Z.to_nat n)).

(** ** The file system and the effects of a run *)

Inductive open_mode : Type :=
  | AppendBinary   (* 'ab': create if missing, keep the content *)
  | WriteBinary.   (* 'wb': create if missing, truncate *)

Inductive event : Type :=
  | EMakedirs (dir : string)
  | EOpen (path : string) (mode : open_mode)
  | EWrite (path : string) (data : list byte).

Record FS : Type := mkFS {
  dirs : gset string;
  files : gmap string (list byte)
}.

Definition empty_fs : FS := {| dirs := ∅; files := ∅ |}.

Definition exec_event (fs : FS) (e : event) : FS :=
  match e with
  | EMakedirs d => {| dirs := {[d]} ∪ dirs fs; files := files fs |}
  | EOpen p AppendBinary =>
      {| dirs := dirs fs;
         files := <[p := default [] (files fs !! p)]> (files fs) |}
  | EOpen p WriteBinary =>
      {| dirs := dirs fs; files := <[p := []]> (files fs) |}
  | EWrite p data =>
      {| dirs := dirs fs;
         files := <[p := default [] (files fs !! p) ++ data]> (files fs) |}
  end.

Definition exec_events (evs : list event) (fs : FS) : FS :=
  fold_left exec_event evs fs.

(** A run: the events performed, in order, and the outcome.  Events
    performed before an exception stay performed. *)
Definition IO (A : Type) : Type := list event * result A.

Definition ret {A} (a : A) : IO A := ([], Ok a).

Definition bind {A B} (m : IO A) (f : A → IO B) : IO B :=
  match m with
  | (evs, Ok a) => let '(evs', r) := f a in (evs ++ evs', r)
  | (evs, Raise e) => (evs, Raise e)
  end.

Definition lift {A} (r : result A) : IO A := ([], r).
Definition emit (e : event) : IO unit := ([e], Ok tt).
Definition raise {A} (e : exn) : IO A := ([], Raise e).

Arguments bind {A B} m f : simpl never.
Arguments ret {A} a : simpl never.
Arguments lift {A} r : simpl never.
Arguments emit e : simpl never.
Arguments raise {A} e : simpl never.

Declare Scope io_scope.
Delimit Scope io_scope with io.
Notation "x <- m ;; k" := (bind m (fun x => k))
  (at level 100, m at next level, right associativity) : io_scope.
Notation "m ;;; k" := (bind m (fun _ => k))
  (at level 100, right associativity) : io_scope.
#[local] Open Scope io_scope.

(** [for a in l: body(a)], collecting what each iteration produced. *)
Fixpoint forM {A B} (l : list A) (body : A → IO B) : IO (list B) :=
  match l with
  | [] => ret []
  | a :: l' => b <- body a ;; bs <- forM l' body ;; ret (b :: bs)
  end.

Definition events {A} (m : IO A) : list event := fst m.
Definition outcome {A} (m : IO A) : result A := snd m.

(** Where a run leaves the file system. *)
Definition run_on {A} (m : IO A) (fs : FS) : FS := exec_events (events m) fs.

(** The chunks written to one path, in order. *)
Definition writes_to (p : string) (evs : list event) : list (list byte) :=
  flat_map (fun e => match e with
                     | EWrite p' data => if String.eqb p p' then [data] else []
                     | _ => []
                     end) evs.

(** ** Paths *)

Definition starts_with_slash (s : string) : bool :=
  match s with
  | String c _ => Ascii.eqb c "/"%char
  | EmptyString => false
  end.

Fixpoint ends_with_slash (s : string) : bool :=
  match s with
  | EmptyString => false
  | String c EmptyString => Ascii.eqb c "/"%char
  | String _ s' => ends_with_slash s'
  end.

(** [os.path.join(a, b)] on POSIX. *)
Definition os_path_join (a b : string) : string :=
  if starts_with_slash b then b
  else if (String.length a =? 0)%nat || ends_with_slash a then a +:+ b
  else a +:+ "/" +:+ b.

(** ** Python containers *)

(** [l[i]] for a list or array and a non-negative index. *)
Definition py_index {A} (l : list A) (i : Z) : result A :=
  if i <? 0 then Raise IndexError
  else match l !! Z.to_nat i with
       | Some a => Ok a
       | None => Raise IndexError
       end.

(** [d[k]] for a dict. *)
Definition dict_get `{Countable K} {V} (d : gmap K V) (k : K) : result V :=
  match d !! k with
  | Some v => Ok v
  | None => Raise KeyError
  end.

(** ** Collaborators: trimesh, the Draco backend, numpy's encodings *)

Class Collaborators : Type := {
  (* trimesh.Trimesh(vertices=..., faces=...) *)
  Trimesh_new : list vec3 → list (Z * Z * Z) → result Mesh;
  (* the five in-place repairs of clean_mesh *)
  remove_degenerate_faces : Mesh → Mesh;
  remove_duplicate_faces : Mesh → Mesh;
  remove_unreferenced_vertices : Mesh → Mesh;
  remove_infinite_values : Mesh → Mesh;
  fill_holes : Mesh → Mesh;
  (* mesh.simplify_quadratic_decimation(face_count) *)
  simplify_quadratic_decimation : Mesh → npfloat → result Mesh;
  (* trimesh.intersections.slice_mesh_plane(mesh, plane_normal, plane_origin) *)
  slice_mesh_plane : Mesh → vec3 → vec3 → result Mesh;
  (* backend.encode_mesh(vertices, faces, compression_level) *)
  backend_encode_mesh : list Z → list Z → Z → result (list byte);
  (* backend.decode_mesh(buffer) *)
  backend_decode_mesh : list byte → result (list Z * list Z);
  (* x.astype('<f').tobytes() of one value: four bytes *)
  f32_bytes : npfloat → list byte;
  f32_bytes_length : ∀ x, length (f32_bytes x) = 4%nat;
  (* what float64 -> uint32 yields on NaN and the infinities *)
  nonfinite_as_uint32 : Z
}.

(** ** cmp_zorder (identical in mesh.py and encoder.py) *)



(** ** Quantize (identical in mesh.py and encoder.py) *)

Record Quantize : Type := mkQuantize {
  upper_bound : Z;
  scale : vec3;
  offset : vec3
}.

(** [Quantize.__init__].  [a >> n] raises ValueError on a negative
    shift count. *)
Definition Quantize_init (fragment_origin fragment_shape input_origin : vec3)
    (quantization_bits : Z) : result Quantize :=
  let shift := 4 * 8 - quantization_bits in
  if shift <? 0 then Raise ValueError
  else
    let upper_bound := Z.shiftr 4294967295 shift in
    let scale := vmap (fdiv (of_Z upper_bound)) fragment_shape in
    let offset :=
      vzip fadd (vzip fsub input_origin fragment_origin)
                (vmap (fdiv (Fin (1 # 2))) scale) in
    Ok {| upper_bound := upper_bound; scale := scale; offset := offset |}.

Section WithCollaborators.
Context `{Collaborators}.

(** The value the quantizer clamps and converts, for one coordinate. *)
Definition quantize_coord (upper_bound : Z) (scale offset v : npfloat) : Z :=
  astype_uint32 nonfinite_as_uint32
    (fminimum (of_Z upper_bound)
       (fmaximum (of_Z 0) (fmul scale (fadd v offset)))).

(** [Quantize.__call__]. *)
Definition Quantize_call (q : Quantize) (vs : list vec3) : list (Z * Z * Z) :=
  map (fun v =>
         let '(x, y, z) := v in
         let '(sx, sy, sz) := scale q in
         let '(ox, oy, oz) := offset q in
         (quantize_coord (upper_bound q) sx ox x,
          quantize_coord (upper_bound q) sy oy y,
          quantize_coord (upper_bound q) sz oz z)) vs.

(** ** encode_mesh, encode_vertices_faces, decode_buffer (encoder.py) *)

Definition flatten3 {A} (rows : list (A * A * A)) : list A :=
  flat_map (fun r => let '(a, b, c) := r in [a; b; c]) rows.

Definition encode_vertices_faces (vs : list vec3) (fs : list (Z * Z * Z))
    (compression_level : Z) : result (list byte) :=
  backend_encode_mesh
    (map (astype_uint32 nonfinite_as_uint32) (flatten3 vs))
    (map (fun i => i mod 2 ^ 32) (flatten3 fs))
    compression_level.

Definition encode_mesh (mesh : Mesh) (compression_level : Z)
    : result (list byte) :=
  encode_vertices_faces (vertices mesh) (faces mesh) compression_level.

(** [arr.reshape(-1, 3)]: ValueError unless the size is a multiple of 3. *)
Fixpoint reshape3 {A} (l : list A) : result (list (A * A * A)) :=
  match l with
  | [] => Ok []
  | a :: b :: c :: l' => rbind (reshape3 l') (fun rows => Ok ((a, b, c) :: rows))
  | _ => Raise ValueError
  end.


(** ** clean_mesh and scale_mesh (identical in mesh.py and encoder.py) *)

Definition clean_mesh (mesh : Mesh) : Mesh :=
  fill_holes
    (remove_infinite_values
       (remove_unreferenced_vertices
          (remove_duplicate_faces
             (remove_degenerate_faces mesh)))).

Definition scale_mesh (mesh : Mesh) (scale : Z) : result Mesh :=
  let vertices := vertices mesh in
  rbind (array_max vertices) (fun maxval =>
  rbind (array_min vertices) (fun minval =>
  let max_nodes := vmap (fdiv (of_Z scale)) (vzip fsub maxval minval) in
  let verts_scaled :=
    map (fun v => vzip fmul max_nodes (vzip fsub v minval)) vertices in
  Ok (with_vertices mesh verts_scaled))).

End WithCollaborators.

(** ** The grid pass shared by the decompositions *)

Definition cell : Type := Z * Z * Z.

(** The rows of [np.eye(3)]. *)
Definition nyz : vec3 := vec3_of_Z 1 0 0.
Definition nxz : vec3 := vec3_of_Z 0 1 0.
Definition nxy : vec3 := vec3_of_Z 0 0 1.

Definition vscale (v : vec3) (k : Z) : vec3 := vmap (fun c => fmul c (of_Z k)) v.
Definition vneg (v : vec3) : vec3 := vmap fneg v.

(** [np.array(lod_pos).T.astype('<I').tobytes(order='C')]: all x, then
    all y, then all z. *)
Definition positions_bytes (lod_pos : list cell) : list byte :=
  le_u32s (map (fun c => c.1.1) lod_pos)
  ++ le_u32s (map (fun c => c.1.2) lod_pos)
  ++ le_u32s (map (fun c => c.2) lod_pos).

Section Decomposition.
Context `{Collaborators}.

Definition f32s (xs : list npfloat) : list byte := flat_map f32_bytes xs.

(** The two slices that keep the slab [k, k+1] along one axis. *)
Definition slab (mesh : Mesh) (normal : vec3) (k : Z) : result Mesh :=
  rbind (slice_mesh_plane mesh normal (vscale normal k)) (fun m =>
  slice_mesh_plane m (vneg normal) (vscale normal (k + 1))).

(** The three nested loops over the grid: [cell_body] is what is done
    with the clipped mesh of one cell and yields its [dracolen]; the
    result pairs each visited cell with it ([lod_pos] and [lod_off]). *)
Definition slice_cells (cell_body : Mesh → cell → IO Z)
    (scaled_mesh : Mesh) (nodes_per_dim : Z) : IO (list (cell * Z)) :=
  rows <- forM (range nodes_per_dim) (fun x =>
    mesh_x <- lift (slab scaled_mesh nyz x) ;;
    cols <- forM (range nodes_per_dim) (fun y =>
      mesh_y <- lift (slab mesh_x nxz y) ;;
      forM (range nodes_per_dim) (fun z =>
        mesh_z <- lift (slab mesh_y nxy z) ;;
        dracolen <- cell_body mesh_z (x, y, z) ;;
        ret ((x, y, z), dracolen))) ;;
    ret (concat cols)) ;;
  ret (concat rows).

(** Quantize the cell's vertices, encode, append to the fragment file. *)
Definition write_fragment (fragment_path : string) (mesh_z : Mesh)
    (quantizer : Quantize) (compression_level : Z) : IO Z :=
  let quantized := Quantize_call quantizer (vertices mesh_z) in
  let mesh_z :=
    with_vertices mesh_z
      (map (fun q => vec3_of_Z q.1.1 q.1.2 q.2) quantized) in
  draco <- lift (encode_mesh mesh_z compression_level) ;;
  emit (EWrite fragment_path draco) ;;;
  ret (Z.of_nat (length draco)).

Definition cell_quantizer (c : cell) (quantization_bits : Z) : result Quantize :=
  Quantize_init (vec3_of_Z c.1.1 c.1.2 c.2) (vec3_of_Z 1 1 1)
                (vec3_of_Z 0 0 0) quantization_bits.

(** The innermost loop body of the full-octree decompositions. *)
Definition fulloctree_cell (fragment_path : string)
    (quantization_bits compression_level : Z)
    (mesh_z : Mesh) (c : cell) : IO Z :=
  quantizer <- lift (cell_quantizer c quantization_bits) ;;
  if (0 <? length (vertices mesh_z))%nat
  then write_fragment fragment_path mesh_z quantizer compression_level
  else ret 0.

(** The innermost loop body of [density_decomposition_mesh]. *)
Definition density_cell (fragment_path : string)
    (quantization_bits compression_level : Z)
    (lod_dictionary : gmap cell bool)
    (mesh_z : Mesh) (c : cell) : IO Z :=
  flag <- lift (dict_get lod_dictionary c) ;;
  if flag : bool then
    if (0 <? length (vertices mesh_z))%nat then
      quantizer <- lift (cell_quantizer c quantization_bits) ;;
      write_fragment fragment_path mesh_z quantizer compression_level
    else ret 0
  else ret 0.

(** The body of [for i in reversed(lods)].  [cell_body_at i] stands for
    what the function sets up for the level before the grid loops (the
    density scheme looks up [dictionary[i]] there). *)
Definition lod_pass (manifest_path : string)
    (cell_body_at : Z → result (Mesh → cell → IO Z))
    (mesh : Mesh) (num_faces_left : list npfloat) (scales : list Z)
    (i : Z) : IO unit :=
  target <- lift (py_index num_faces_left i) ;;
  decimated_mesh <- lift (simplify_quadratic_decimation mesh target) ;;
  let decimated_mesh := clean_mesh decimated_mesh in
  nodes_per_dim <- lift (py_index scales i) ;;
  scaled_mesh <- lift (scale_mesh decimated_mesh nodes_per_dim) ;;
  cell_body <- lift (cell_body_at i) ;;
  cells <- slice_cells cell_body scaled_mesh nodes_per_dim ;;
  emit (EWrite manifest_path (positions_bytes (map fst cells))) ;;;
  emit (EWrite manifest_path (le_u32s (map snd cells))).

(** The arrays that define the levels. *)
Definition lods_of (num_lods : Z) : list Z := range num_lods.
Definition scales_of (lods : list Z) : list Z := map (fun l => int64 (2 ^ l)) lods.
Definition decimate_by_of (num_lods : Z) (scales : list Z) : list npfloat :=
  map (fun s => let d := fdiv (of_Z num_lods) (of_Z s) in fmul d d) scales.
Definition num_faces_left_of (num_faces : Z) (decimate_by : list npfloat)
    : list npfloat :=
  map (ffloor_divide (of_Z num_faces)) decimate_by.
Definition num_fragments_per_lod_of (lods : list Z) : list Z :=
  rev (map (fun l => int64 (8 ^ l)) lods).

(** The six header writes. *)
Definition write_header (manifest_path : string)
    (chunk_shape grid_origin : vec3) (num_lods : Z)
    (scales num_fragments_per_lod : list Z) : IO unit :=
  emit (EWrite manifest_path (f32s (vlist chunk_shape))) ;;;
  emit (EWrite manifest_path (f32s (vlist grid_origin))) ;;;
  packed <- lift (struct_pack_I num_lods) ;;
  emit (EWrite manifest_path packed) ;;;
  emit (EWrite manifest_path (f32s (map of_Z scales))) ;;;
  emit (EWrite manifest_path
          (f32s (flat_map (fun _ => [of_Z 0; of_Z 0; of_Z 0]) (range num_lods)))) ;;;
  emit (EWrite manifest_path (le_u32s num_fragments_per_lod)).

Definition manifest_filename_of (mesh_dir segment_id : string) : string :=
  os_path_join mesh_dir (segment_id +:+ ".index").
Definition fragment_filename_of (mesh_dir segment_id : string) : string :=
  os_path_join mesh_dir segment_id.

(** Everything from [os.makedirs] on; the functions differ in the chunk
    shape and in the cell body. *)
Definition write_files (mesh : Mesh) (num_lods : Z)
    (segment_id directory mesh_subdirectory : string)
    (chunk_shape grid_origin : vec3)
    (cell_body_at : string → Z → result (Mesh → cell → IO Z)) : IO unit :=
  let lods := lods_of num_lods in
  let scales := scales_of lods in
  let decimate_by := decimate_by_of num_lods scales in
  let num_faces := Z.of_nat (length (faces mesh)) in
  let num_faces_left := num_faces_left_of num_faces decimate_by in
  let mesh_dir := os_path_join directory mesh_subdirectory in
  emit (EMakedirs mesh_dir) ;;;
  let num_fragments_per_lod := num_fragments_per_lod_of lods in
  let manifest_filename := manifest_filename_of mesh_dir segment_id in
  emit (EOpen manifest_filename AppendBinary) ;;;
  write_header manifest_filename chunk_shape grid_origin num_lods scales
               num_fragments_per_lod ;;;
  let fragment_filename := fragment_filename_of mesh_dir segment_id in
  emit (EOpen fragment_filename WriteBinary) ;;;
  forM (rev lods)
       (lod_pass manifest_filename (cell_body_at fragment_filename)
                 mesh num_faces_left scales) ;;;
  ret tt.

(** ** mesh.py: fulloctree_decomposition_mesh and fulloctree_decomposition *)

Definition fulloctree_decomposition_mesh (mesh : Mesh) (num_lods : Z)
    (segment_id directory : string)
    (quantization_bits compression_level : Z)
    (mesh_subdirectory : string) : IO unit :=
  if negb ((quantization_bits =? 10) || (quantization_bits =? 16))
  then raise AssertionError
  else
    let mesh_vertices := vertices mesh in
    max_mesh_vertex <- lift (array_max mesh_vertices) ;;
    min_mesh_vertex <- lift (array_min mesh_vertices) ;;
    let mesh := clean_mesh mesh in
    let chunk_shape :=
      vmap (fun c => fdiv c (of_Z num_lods))
           (vzip fsub max_mesh_vertex min_mesh_vertex) in
    write_files mesh num_lods segment_id directory mesh_subdirectory
      chunk_shape min_mesh_vertex
      (fun fragment_filename _ =>
         Ok (fulloctree_cell fragment_filename quantization_bits
                             compression_level)).

Definition fulloctree_decomposition (vs : list vec3) (fs : list (Z * Z * Z))
    (num_lods : Z) (segment_id directory : string)
    (quantization_bits compression_level : Z)
    (mesh_subdirectory : string) : IO unit :=
  mesh <- lift (Trimesh_new vs fs) ;;
  fulloctree_decomposition_mesh mesh num_lods segment_id directory
    quantization_bits compression_level mesh_subdirectory.

(** ** encoder.py: fulloctree_decomposition *)

Definition encoder_fulloctree_decomposition (mesh : Mesh) (num_lods : Z)
    (segment_id directory : string)
    (quantization_bits compression_level : Z)
    (mesh_subdirectory : string) : IO unit :=
  if negb (quantization_bits =? 10) || negb (quantization_bits =? 16)
  then raise ValueError
  else
    let mesh_vertices := vertices mesh in
    max_mesh_vertex <- lift (array_max mesh_vertices) ;;
    min_mesh_vertex <- lift (array_min mesh_vertices) ;;
    let mesh := clean_mesh mesh in
    let chunk_shape :=
      vmap (fun c => fdiv c (round64 (2 ^ num_lods)%Q))
           (vzip fsub max_mesh_vertex min_mesh_vertex) in
    write_files mesh num_lods segment_id directory mesh_subdirectory
      chunk_shape min_mesh_vertex
      (fun fragment_filename _ =>
         Ok (fulloctree_cell fragment_filename quantization_bits
                             compression_level)).

End Decomposition.

(** ** mesh.py: generate_mesh_dataframe *)

(** [np.linspace(start, stop, num)] for [num >= 2], as numpy computes
    it: [step = (stop - start) / div], sample [k] is [k * step + start]
    (or [(k / div) * (stop - start) + start] when the step is zero), and
    the last sample is set to [stop]. *)
Definition np_linspace (start stop : npfloat) (num : Z) : list npfloat :=
  let div := num - 1 in
  let delta := fsub stop start in
  let step := fdiv delta (of_Z div) in
  let y (k : Z) : npfloat :=
    if feq step (of_Z 0) then fmul (fdiv (of_Z k) (of_Z div)) delta
    else fmul (of_Z k) step in
  map (fun k => if k =? div then stop else fadd (y k) start) (range num).

(** The cells of an [n x n x n] grid in loop order: x outer, y middle,
    z inner. *)
Definition grid_cells (n : Z) : list cell :=
  flat_map (fun x =>
    flat_map (fun y =>
      map (fun z => (x, y, z)) (range n)) (range n)) (range n).

Definition in_split (splits : list npfloat) (k : Z) (v : npfloat) : bool :=
  fge v (nth (Z.to_nat k) splits NaN) && flt v (nth (Z.to_nat (k + 1)) splits NaN).

(** [countcompare] for the cell [(x, y, z)] at level [lod]. *)
Definition count_cell (vs : list vec3) (minvertex maxvertex : vec3)
    (lod : Z) (c : cell) : Z :=
  let numsplits := 2 ^ lod + 1 in
  let xsplits := np_linspace (coord AxX minvertex) (coord AxX maxvertex) numsplits in
  let ysplits := np_linspace (coord AxY minvertex) (coord AxY maxvertex) numsplits in
  let zsplits := np_linspace (coord AxZ minvertex) (coord AxZ maxvertex) numsplits in
  let '(x, y, z) := c in
  Z.of_nat (length (filter (fun v =>
    let xtrue := in_split xsplits x (coord AxX v) in
    let ytrue := in_split ysplits y (coord AxY v) in
    let ztrue := in_split zsplits z (coord AxZ v) in
    Bool.eqb xtrue ytrue && Bool.eqb xtrue ztrue && Bool.eqb xtrue true) vs)).

(** The counts of one level, in loop order ([stopcounts], with the cell). *)
Definition level_counts (vs : list vec3) (minvertex maxvertex : vec3)
    (lod : Z) : list (cell * Z) :=
  map (fun c => (c, count_cell vs minvertex maxvertex lod c))
      (grid_cells (2 ^ lod + 1 - 1)).

(** [dict_count[lod]] after the three loops. *)
Definition level_dict (minvertices : Z) (counts : list (cell * Z))
    : gmap cell bool :=
  fold_left (fun d cc => <[cc.1 := (minvertices <? cc.2)]> d) counts ∅.

Definition all_below (minvertices : Z) (counts : list (cell * Z)) : bool :=
  forallb (fun cc => cc.2 <=? minvertices) counts.

(** The [while reachlevel == False] loop; it need not terminate, so it
    runs on fuel: one unit per iteration, [None] when it runs out. *)
Fixpoint level_loop (fuel : nat) (vs : list vec3) (minvertices : Z)
    (minvertex maxvertex : vec3) (lod : Z)
    (dict_count : gmap Z (gmap cell bool))
    : option (Z * gmap Z (gmap cell bool)) :=
  match fuel with
  | O => None
  | S fuel' =>
      let counts := level_counts vs minvertex maxvertex lod in
      let dict_count := <[lod := level_dict minvertices counts]> dict_count in
      if all_below minvertices counts
      then Some (lod, delete lod dict_count)
      else level_loop fuel' vs minvertices minvertex maxvertex (lod + 1)
                      dict_count
  end.

Definition generate_mesh_dataframe (fuel : nat) (vs : list vec3)
    (minvertices : Z) : option (result (Z * gmap Z (gmap cell bool))) :=
  let dict_count : gmap Z (gmap cell bool) :=
    {[ 0 := {[ (0, 0, 0) := true ]} ]} in
  let num_vertices := Z.of_nat (length vs) in
  if num_vertices <? minvertices then Some (Ok (1, dict_count))
  else
    match array_max vs, array_min vs with
    | Ok maxvertex, Ok minvertex =>
        option_map Ok
          (level_loop fuel vs minvertices minvertex maxvertex 1 dict_count)
    | Raise e, _ | _, Raise e => Some (Raise e)
    end.

(** ** mesh.py: density_decomposition_mesh and density_decomposition *)

Section Density.
Context `{Collaborators}.

Definition density_decomposition_mesh (fuel : nat) (mesh : Mesh)
    (segment_id directory : string)
    (minimum_vertices quantization_bits compression_level : Z)
    (mesh_subdirectory : string) : option (IO unit) :=
  if negb ((quantization_bits =? 10) || (quantization_bits =? 16))
  then Some (raise AssertionError)
  else
    let mesh_vertices := vertices mesh in
    match array_max mesh_vertices, array_min mesh_vertices with
    | Ok max_mesh_vertex, Ok min_mesh_vertex =>
        let mesh := clean_mesh mesh in
        match generate_mesh_dataframe fuel (vertices mesh) minimum_vertices with
        | None => None
        | Some (Raise e) => Some (raise e)
        | Some (Ok (num_lods, dictionary)) =>
            let chunk_shape :=
              vmap (fun c => fdiv c (of_Z num_lods))
                   (vzip fsub max_mesh_vertex min_mesh_vertex) in
            Some (write_files mesh num_lods segment_id directory
                    mesh_subdirectory chunk_shape min_mesh_vertex
                    (fun fragment_filename i =>
                       rbind (dict_get dictionary i) (fun lod_dictionary =>
                       Ok (density_cell fragment_filename quantization_bits
                             compression_level lod_dictionary))))
        end
    | Raise e, _ | _, Raise e => Some (raise e)
    end.

(** The keyword arguments of a call to [density_decomposition_mesh]:
    [None] for a parameter the call does not pass. *)
Record density_kwargs : Type := {
  kw_mesh : option Mesh;
  kw_segment_id : option string;
  kw_directory : option string;
  kw_minimum_vertices : option Z;
  kw_quantization_bits : option Z;
  kw_compression_level : option Z;
  kw_mesh_subdirectory : option string
}.

(** Binding the arguments: a parameter without default that is not
    passed is a TypeError, raised before the body runs. *)
Definition call_density_decomposition_mesh (fuel : nat) (kw : density_kwargs)
    : option (IO unit) :=
  match kw_mesh kw, kw_segment_id kw, kw_directory kw with
  | Some mesh, Some segment_id, Some directory =>
      density_decomposition_mesh fuel mesh segment_id directory
        (default 1024 (kw_minimum_vertices kw))
        (default 16 (kw_quantization_bits kw))
        (default 5 (kw_compression_level kw))
        (default "meshdir"%string (kw_mesh_subdirectory kw))
  | _, _, _ => Some (raise TypeError)
  end.

Definition density_decomposition (fuel : nat) (vs : list vec3)
    (fs : list (Z * Z * Z)) (segment_id directory : string)
    (minimum_vertices quantization_bits compression_level : Z)
    (mesh_subdirectory : string) : option (IO unit) :=
  match Trimesh_new vs fs with
  | Raise e => Some (raise e)
  | Ok mesh =>
      call_density_decomposition_mesh fuel
        {| kw_mesh := Some mesh;
           kw_segment_id := Some segment_id;
           kw_directory := None;
           kw_minimum_vertices := Some minimum_vertices;
           kw_quantization_bits := Some quantization_bits;
           kw_compression_level := Some compression_level;
           kw_mesh_subdirectory := Some mesh_subdirectory |}
  end.

End Density.

(** ** Stand-in collaborators for closed examples

    A clipper that keeps the vertices on the non-negative side of the
    plane and drops the faces, a simplifier and repairs that change
    nothing, a codec that stores each integer in four bytes. *)

Module StandIn.

Definition dot (a b : vec3) : npfloat :=
  let '(x, y, z) := vzip fmul a b in fadd (fadd x y) z.

Definition slice (mesh : Mesh) (normal origin : vec3) : result Mesh :=
  Ok {| vertices :=
          filter (fun v => fle (of_Z 0) (dot (vzip fsub v origin) normal))
                 (vertices mesh);
        faces := [] |}.

Definition encode (vs fs : list Z) (compression_level : Z) : result (list byte) :=
  Ok (le_u32s vs ++ le_u32s fs).

Definition decode (buffer : list byte) : result (list Z * list Z) :=
  Raise (ExternalError "decode").

#[export] Instance collaborators : Collaborators := {|
  Trimesh_new vs fs := Ok {| vertices := vs; faces := fs |};
  remove_degenerate_faces m := m;
  remove_duplicate_faces m := m;
  remove_unreferenced_vertices m := m;
  remove_infinite_values m := m;
  fill_holes m := m;
  simplify_quadratic_decimation m _ := Ok m;
  slice_mesh_plane := slice;
  backend_encode_mesh := encode;
  backend_decode_mesh := decode;
  f32_bytes _ := [0; 0; 0; 0];
  f32_bytes_length _ := eq_refl;
  nonfinite_as_uint32 := 0
|}.

Definition v3 (x y z : Q) : vec3 := (Fin x, Fin y, Fin z).

(** Three points on the diagonal of the unit cube. *)
Definition diagonal : list vec3 :=
  [v3 0 0 0; v3 (1 # 4) (1 # 4) (1 # 4); v3 1 1 1].

Definition diagonal_mesh : Mesh := {| vertices := diagonal; faces := [] |}.

End StandIn.

(** ** Reading the quantizer *)

(** The value [Quantize.__call__] clamps for one coordinate, as float64
    computes it: [scale * (v + offset)]. *)
Definition scaled_value (scale offset v : npfloat) : npfloat :=
  fmul scale (fadd v offset).

Definition clamp_floor (upper_bound : Z) (q : Q) : Z :=
  Z.max 0 (Z.min upper_bound (Qfloor q)).

(** A scaled value clamped to [0, upper_bound] and converted to an
    integer: the floor of a finite value, clamped; the nearer bound for
    an infinity; what the platform makes of NaN. *)
Definition clamp_cast (nonfinite upper_bound : Z) (s : npfloat) : Z :=
  match s with
  | Fin q => clamp_floor upper_bound q
  | PInf => upper_bound
  | NInf => 0
  | NaN => nonfinite
  end.

(** The quantized coordinate [t] of the coordinate [v], in the grid
    cell that starts at [k] on that axis ([k] a uint32, as the manifest
    stores it): 0 when [v] is at or below the cell's lower face,
    [upper_bound] when it is at or beyond the upper face. *)
Definition saturated (upper_bound k : Z) (v : Q) (t : Z) : Prop :=
  0 <= k < 2 ^ 32 →
  ((v <= inject_Z k)%Q → t = 0)
  ∧ ((inject_Z k + 1 <= v)%Q → t = upper_bound).

(** ** The quantizer as the specification words it

    Modelled from the spec: [clamp(0, upper_bound, round(scale * (v +
    offset)))], rounding the scaled value to the nearest integer (ties
    to even, as numpy rounds) before clamping. *)

Definition round_nearest (q : Q) : Z :=
  let f := Qfloor q in
  let r := (q - inject_Z f)%Q in
  if Qlt_bool r (1 # 2) then f
  else if Qlt_bool (1 # 2) r then f + 1
  else if Z.even f then f else f + 1.

Definition quantize_coord_spec (upper_bound : Z) (scale offset v : npfloat)
    : Z :=
  match scaled_value scale offset v with
  | Fin s => Z.max 0 (Z.min upper_bound (round_nearest s))
  | PInf => upper_bound
  | _ => 0
  end.

(** A vertex with finite coordinates. *)
Definition finite3 (v : Q * Q * Q) : vec3 := (Fin v.1.1, Fin v.1.2, Fin v.2).

Definition in_range3 (lo hi : Z) (t : Z * Z * Z) : Prop :=
  (lo <= t.1.1 <= hi) ∧ (lo <= t.1.2 <= hi) ∧ (lo <= t.2 <= hi).

(** Two float64 values that are the same number (or the same special
    value). *)
Definition same_value (a b : npfloat) : Prop :=
  match a, b with
  | Fin x, Fin y => (x == y)%Q
  | PInf, PInf | NInf, NInf | NaN, NaN => True
  | _, _ => False
  end.

(** What a run did with one cell: the length it recorded in the
    manifest and the bytes it appended to the fragment file. *)
Record cell_report : Type := mkReport {
  cr_cell : cell;
  cr_len : Z;
  cr_bytes : list byte
}.

(** The two manifest writes of a level. *)
Definition manifest_block (level : list cell_report) : list (list byte) :=
  [positions_bytes (map cr_cell level); le_u32s (map cr_len level)].

Definition level_bytes (level : list cell_report) : list byte :=
  flat_map cr_bytes level.

(** ** The grid pass, cell by cell *)

Section Reports.
Context `{Collaborators}.

(** The six slices that cut the cell [(x, y, z)] out of the scaled mesh. *)
Definition clip (scaled_mesh : Mesh) (c : cell) : result Mesh :=
  let '(x, y, z) := c in
  rbind (slab scaled_mesh nyz x) (fun mesh_x =>
  rbind (slab mesh_x nxz y) (fun mesh_y =>
  slab mesh_y nxy z)).

(** One visit of the grid pass. *)
Definition visit_cell (cell_body : Mesh → cell → IO Z) (scaled_mesh : Mesh)
    (c : cell) : IO (cell * Z) :=
  mesh_z <- lift (clip scaled_mesh c) ;;
  dracolen <- cell_body mesh_z c ;;
  ret (c, dracolen).

(** The mesh that level [i] clips: simplified to the level's face
    count, cleaned, rescaled to the level's grid. *)
Definition scaled_mesh_at (mesh : Mesh) (num_lods i : Z) : result Mesh :=
  let scales := scales_of (lods_of num_lods) in
  let num_faces_left :=
    num_faces_left_of (Z.of_nat (length (faces mesh)))
                      (decimate_by_of num_lods scales) in
  rbind (py_index num_faces_left i) (fun target =>
  rbind (simplify_quadratic_decimation mesh target) (fun decimated_mesh =>
  rbind (py_index scales i) (fun nodes_per_dim =>
  scale_mesh (clean_mesh decimated_mesh) nodes_per_dim))).

(** What one cell's report says about the run. *)
Definition cell_visited (fragment_path : string)
    (body : Mesh → cell → IO Z) (scaled : Mesh) (r : cell_report) : Prop :=
  cr_len r = Z.of_nat (length (cr_bytes r))
  ∧ ∃ mesh_z evs,
      clip scaled (cr_cell r) = Ok mesh_z
      ∧ body mesh_z (cr_cell r) = (evs, Ok (cr_len r))
      ∧ (evs = [] ∧ cr_bytes r = []
         ∨ evs = [EWrite fragment_path (cr_bytes r)]).

(** What the reports of one level say about the run. *)
Definition level_visited (mesh : Mesh) (num_lods : Z)
    (fragment_path : string)
    (cell_body_at : Z → result (Mesh → cell → IO Z))
    (i : Z) (level : list cell_report) : Prop :=
  ∃ nodes_per_dim scaled body,
    py_index (scales_of (lods_of num_lods)) i = Ok nodes_per_dim
    ∧ scaled_mesh_at mesh num_lods i = Ok scaled
    ∧ cell_body_at i = Ok body
    ∧ map cr_cell level = grid_cells nodes_per_dim
    ∧ Forall (cell_visited fragment_path body scaled) level.

End Reports.

(** ** The density run, cell by cell *)

Section DensityReports.
Context `{Collaborators}.

(** The buffer the code appends for a cell whose clipped mesh [mesh_z]
    has a vertex: the vertices quantized for the cell, stored back in
    the mesh as float64, encoded. *)
Definition encoded_cell (mesh_z : Mesh) (c : cell)
    (quantization_bits compression_level : Z) : result (list byte) :=
  rbind (cell_quantizer c quantization_bits) (fun quantizer =>
  encode_mesh
    (with_vertices mesh_z
       (map (fun q => vec3_of_Z q.1.1 q.1.2 q.2)
            (Quantize_call quantizer (vertices mesh_z))))
    compression_level).

(** What a density run did with one cell of level [i].  The cell has a
    flag in the level's dictionary.  Flagged False, or with an empty
    clipped mesh, it is recorded with length 0 and contributes no
    bytes; flagged True with a vertex in its clipped mesh, it
    contributes the encoded buffer.  The root of level 0 is flagged
    True; at a level [i >= 1] the flag says whether the cell's vertex
    count EXCEEDS the threshold. *)
Definition density_cell_reported (vs : list vec3)
    (minimum_vertices quantization_bits compression_level : Z) (i : Z)
    (lod_dictionary : gmap cell bool) (scaled : Mesh) (r : cell_report)
    : Prop :=
  ∃ (flag : bool) (mesh_z : Mesh),
    lod_dictionary !! cr_cell r = Some flag
    ∧ clip scaled (cr_cell r) = Ok mesh_z
    ∧ cr_len r = Z.of_nat (length (cr_bytes r))
    ∧ (flag = false ∨ vertices mesh_z = [] →
       cr_len r = 0 ∧ cr_bytes r = [])
    ∧ (flag = true → vertices mesh_z ≠ [] →
       encoded_cell mesh_z (cr_cell r) quantization_bits compression_level
       = Ok (cr_bytes r))
    ∧ (i = 0 → flag = true)
    ∧ (1 <= i →
       ∀ maxvertex minvertex,
         array_max vs = Ok maxvertex → array_min vs = Ok minvertex →
         flag = (minimum_vertices
                 <? count_cell vs minvertex maxvertex i (cr_cell r))).

(** What a density run did at level [i]: it looked up the level's
    dictionary, rescaled the mesh to the level's grid and visited every
    cell of the grid, in loop order. *)
Definition density_level_reported (mesh : Mesh) (num_lods : Z)
    (minimum_vertices quantization_bits compression_level : Z)
    (dictionary : gmap Z (gmap cell bool)) (i : Z)
    (level : list cell_report) : Prop :=
  ∃ lod_dictionary scaled,
    dictionary !! i = Some lod_dictionary
    ∧ scaled_mesh_at mesh num_lods i = Ok scaled
    ∧ map cr_cell level = grid_cells (int64 (2 ^ i))
    ∧ (i < 63 → map cr_cell level = grid_cells (2 ^ i))
    ∧ Forall (density_cell_reported (vertices mesh) minimum_vertices
                quantization_bits compression_level i lod_dictionary scaled)
             level.

End DensityReports.

(** The six chunks of the manifest header. *)
Definition header_chunks `{Collaborators} (chunk_shape grid_origin : vec3)
    (num_lods : Z) : list (list byte) :=
  [f32s (vlist chunk_shape);
   f32s (vlist grid_origin);
   le_u32 num_lods;
   f32s (map of_Z (scales_of (lods_of num_lods)));
   f32s (flat_map (fun _ => [of_Z 0; of_Z 0; of_Z 0]) (range num_lods));
   le_u32s (num_fragments_per_lod_of (lods_of num_lods))].

(** A cell body that either does nothing and yields 0, or appends one
    buffer to the fragment file and yields its length. *)
Definition appends_fragment (fragment_path : string)
    (cell_body : Mesh → cell → IO Z) : Prop :=
  ∀ mesh_z c evs d,
    cell_body mesh_z c = (evs, Ok d) →
    (evs = [] ∧ d = 0)
    ∨ ∃ draco, evs = [EWrite fragment_path draco]
               ∧ d = Z.of_nat (length draco).

Definition is_write (e : event) : Prop :=
  match e with EWrite _ _ => True | _ => False end.




(** * Properties *)

(** ** Rationals and float64 values *)

(** *** Powers of two *)

Lemma pow2_pos (j : Z) : (0 < 2 ^ j)%Q.
Proof. by apply Qpower_0_lt. Qed.

Lemma pow2_add (a b : Z) : (2 ^ (a + b) == 2 ^ a * 2 ^ b)%Q.
Proof. by apply Qpower_plus. Qed.

Lemma pow2_le (a b : Z) : a <= b → (2 ^ a <= 2 ^ b)%Q.
Proof. intros Hab. by apply Qpower_le_compat_l. Qed.

Lemma pow2_lt_inv (a b : Z) : (2 ^ a < 2 ^ b)%Q → a < b.
Proof.
  intros Hlt. destruct (Z_lt_le_dec a b) as [|Hge]; [done|].
  exfalso. apply (Qlt_not_le _ _ Hlt). by apply pow2_le.
Qed.

(** [2^j] as a fraction of two integer powers. *)
Lemma pow2_frac (j : Z) :
  (2 ^ j == Qmake (2 ^ Z.max j 0) (Z.to_pos (2 ^ Z.max (- j) 0)))%Q.
Proof.
  destruct (Z_lt_le_dec j 0) as [Hj | Hj].
  - rewrite (Z.max_r j 0), (Z.max_l (- j) 0) by lia.
    replace j with (- - j) at 1 by lia. rewrite Qpower_opp.
    rewrite <- (Zpower_Qpower 2 (- j)) by lia.
    assert (0 < 2 ^ (- j)) as Hp by (apply Z.pow_pos_nonneg; lia).
    destruct (2 ^ (- j)) as [|p|p] eqn:E; try lia. done.
  - rewrite (Z.max_l j 0), (Z.max_r (- j) 0) by lia.
    by rewrite <- (Zpower_Qpower 2 j).
Qed.

(** Comparing a fraction with a power of two, on integers. *)
Lemma pow2_le_frac (j : Z) (n : Z) (d : positive) :
  (2 ^ j <= n # d)%Q ↔ 2 ^ Z.max j 0 * Z.pos d <= n * 2 ^ Z.max (- j) 0.
Proof.
  rewrite pow2_frac. unfold Qle. simpl.
  rewrite Z2Pos.id by (apply Z.pow_pos_nonneg; lia). done.
Qed.

Lemma pow2_gt_frac (j : Z) (n : Z) (d : positive) :
  (n # d < 2 ^ j)%Q ↔ n * 2 ^ Z.max (- j) 0 < 2 ^ Z.max j 0 * Z.pos d.
Proof.
  rewrite pow2_frac. unfold Qlt. simpl.
  rewrite Z2Pos.id by (apply Z.pow_pos_nonneg; lia). done.
Qed.

Lemma Zpow2_succ (a : Z) : 0 <= a → 2 ^ (a + 1) = 2 * 2 ^ a.
Proof. intros Ha. rewrite Z.pow_add_r by lia. lia. Qed.

Ltac forget_pow e := let x := fresh "p" in set (x := 2 ^ e) in *; clearbody x.

Lemma Qlog2_spec (n d : positive) :
  (2 ^ Qlog2 n d <= Z.pos n # d)%Q ∧ (Z.pos n # d < 2 ^ (Qlog2 n d + 1))%Q.
Proof.
  rewrite pow2_le_frac, pow2_gt_frac. unfold Qlog2.
  pose proof (Z.log2_spec (Z.pos n) ltac:(lia)) as [Ha1 Ha2].
  pose proof (Z.log2_spec (Z.pos d) ltac:(lia)) as [Hb1 Hb2].
  pose proof (Z.log2_nonneg (Z.pos n)) as Ha0.
  pose proof (Z.log2_nonneg (Z.pos d)) as Hb0.
  set (a := Z.log2 (Z.pos n)) in *. set (b := Z.log2 (Z.pos d)) in *.
  rewrite <- Z.add_1_r in Ha2, Hb2. rewrite Zpow2_succ in Ha2, Hb2 by done.
  assert (0 < 2 ^ a) as HA by (apply Z.pow_pos_nonneg; lia).
  assert (0 < 2 ^ b) as HB by (apply Z.pow_pos_nonneg; lia).
  set (N := Z.pos n) in *. set (D := Z.pos d) in *.
  assert (0 < N) as HN by done. assert (0 < D) as HD by done.
  clearbody N D.
  destruct (Z.leb_spec 0 (a - b)) as [Hl | Hl].
  - assert (2 ^ a = 2 ^ (a - b) * 2 ^ b) as HAB.
    { rewrite <- Z.pow_add_r by lia. f_equal. lia. }
    destruct (Z.leb_spec (D * 2 ^ (a - b)) N) as [Ht | Ht].
    + rewrite (Z.max_l (a - b) 0), (Z.max_r (- (a - b)) 0) by lia.
      rewrite (Z.max_l (a - b + 1) 0), (Z.max_r (- (a - b + 1)) 0) by lia.
      rewrite Zpow2_succ by done. change (2 ^ 0) with 1.
      assert (0 < 2 ^ (a - b)) as HL by (apply Z.pow_pos_nonneg; lia).
      forget_pow (a - b). forget_pow a. forget_pow b.
      nia.
    + replace (a - b - 1 + 1) with (a - b) by lia.
      rewrite (Z.max_l (a - b) 0), (Z.max_r (- (a - b)) 0) by lia.
      change (2 ^ 0) with 1. split; [|lia].
      destruct (Z.eq_dec (a - b) 0) as [E | E].
      * replace (a - b - 1) with (-1) by lia. rewrite E in *.
        change (2 ^ Z.max (-1) 0) with 1. change (2 ^ Z.max (- -1) 0) with 2.
        change (2 ^ 0) with 1 in *. forget_pow a. forget_pow b. lia.
      * rewrite (Z.max_l (a - b - 1) 0), (Z.max_r (- (a - b - 1)) 0) by lia.
        replace (a - b) with (a - b - 1 + 1) in HAB, Ht by lia.
        rewrite Zpow2_succ in HAB, Ht by lia.
        change (2 ^ 0) with 1.
        assert (0 < 2 ^ (a - b - 1)) as HL by (apply Z.pow_pos_nonneg; lia).
        forget_pow (a - b - 1). forget_pow a. forget_pow b.
        nia.
  - assert (2 ^ b = 2 ^ (- (a - b)) * 2 ^ a) as HAB.
    { rewrite <- Z.pow_add_r by lia. f_equal. lia. }
    destruct (Z.leb_spec D (N * 2 ^ (- (a - b)))) as [Ht | Ht].
    + rewrite (Z.max_r (a - b) 0), (Z.max_l (- (a - b)) 0) by lia.
      change (2 ^ 0) with 1. split; [lia|].
      destruct (Z.eq_dec (a - b + 1) 0) as [E | E].
      * rewrite E. change (2 ^ Z.max 0 0) with 1. change (2 ^ Z.max (- 0) 0) with 1.
        replace (- (a - b)) with 1 in * by lia.
        change (2 ^ 1) with 2 in *. forget_pow a. forget_pow b. lia.
      * rewrite (Z.max_r (a - b + 1) 0), (Z.max_l (- (a - b + 1)) 0) by lia.
        replace (- (a - b)) with (- (a - b + 1) + 1) in HAB, Ht by lia.
        rewrite Zpow2_succ in HAB, Ht by lia.
        change (2 ^ 0) with 1.
        assert (0 < 2 ^ (- (a - b + 1))) as HL by (apply Z.pow_pos_nonneg; lia).
        forget_pow (- (a - b + 1)). forget_pow a. forget_pow b.
        nia.
    + replace (a - b - 1 + 1) with (a - b) by lia.
      rewrite (Z.max_r (a - b) 0), (Z.max_l (- (a - b)) 0) by lia.
      rewrite (Z.max_r (a - b - 1) 0), (Z.max_l (- (a - b - 1)) 0) by lia.
      replace (- (a - b - 1)) with (- (a - b) + 1) by lia.
      rewrite Zpow2_succ by lia. change (2 ^ 0) with 1.
      assert (0 < 2 ^ (- (a - b))) as HL by (apply Z.pow_pos_nonneg; lia).
      forget_pow (- (a - b)). forget_pow a. forget_pow b.
      nia.
Qed.

(** *** Rounding a quotient of integers *)

Lemma div_nearest_even_spec (N D : Z) :
  0 <= N → 0 < D →
  0 <= div_nearest_even N D ∧
  - D <= 2 * (div_nearest_even N D * D - N) <= D.
Proof.
  intros HN HD. unfold div_nearest_even.
  pose proof (Z.div_mod N D ltac:(lia)) as Hdm.
  pose proof (Z.mod_pos_bound N D HD) as Hr.
  assert (0 <= N / D) as Hq by (apply Z.div_pos; lia).
  destruct (Z.compare_spec (2 * (N mod D)) D) as [Hc | Hc | Hc];
    [destruct (Z.even (N / D))| |]; nia.
Qed.

Lemma div_nearest_even_exact (a D : Z) :
  0 < D → div_nearest_even (a * D) D = a.
Proof.
  intros HD. unfold div_nearest_even.
  rewrite Z.mod_mul, Z.div_mul by lia.
  destruct (Z.compare_spec (2 * 0) D); lia.
Qed.

(** The same, as rationals. *)
Lemma div_nearest_even_close (N D : Z) :
  0 <= N → 0 < D →
  (inject_Z (div_nearest_even N D) - (N # Z.to_pos D) <= 1 # 2)%Q
  ∧ ((N # Z.to_pos D) - inject_Z (div_nearest_even N D) <= 1 # 2)%Q.
Proof.
  intros HN HD. destruct (div_nearest_even_spec N D HN HD) as [_ Hm].
  unfold Qle, Qminus, Qplus, Qopp. simpl.
  rewrite !Z2Pos.id by lia. lia.
Qed.

Lemma Qscale2_value (m e : Z) : (Qscale2 m e == inject_Z m * 2 ^ e)%Q.
Proof.
  unfold Qscale2. destruct (Z.leb_spec 0 e) as [He | He].
  - by rewrite inject_Z_mult, Zpower_Qpower.
  - rewrite Qred_correct, pow2_frac.
    rewrite (Z.max_r e 0), (Z.max_l (- e) 0) by lia.
    unfold Qeq. simpl. lia.
Qed.

(** The value that is rounded to the mantissa: [(n/d) / 2^e]. *)
Lemma mantissa_close (n d : positive) :
  let e := quantum n d in
  let m := mantissa n d in
  0 <= m
  ∧ (inject_Z m * 2 ^ e - (Z.pos n # d) <= 2 ^ (e - 1))%Q
  ∧ ((Z.pos n # d) - inject_Z m * 2 ^ e <= 2 ^ (e - 1))%Q.
Proof.
  intros e m.
  assert (2 ^ (e - 1) == 2 ^ e * (1 # 2))%Q as Hhalf.
  { unfold Z.sub. by rewrite pow2_add. }
  pose proof (pow2_pos e) as Hpos.
  assert (∃ N D, 0 <= N ∧ 0 < D ∧ m = div_nearest_even N D
                 ∧ ((N # Z.to_pos D) * 2 ^ e == Z.pos n # d)%Q)
    as (N & D & HN & HD & Hm & Hval).
  { unfold m, mantissa. fold e. destruct (Z.leb_spec 0 e) as [He | He].
    - assert (0 < 2 ^ e) by (apply Z.pow_pos_nonneg; lia).
      eexists _, _. split; [|split; [|split; [reflexivity|]]]; [lia | lia |].
      rewrite pow2_frac. rewrite (Z.max_l e 0), (Z.max_r (- e) 0) by lia.
      unfold Qeq. simpl. rewrite Pos.mul_1_r, Z2Pos.id by lia. lia.
    - assert (0 < 2 ^ (- e)) by (apply Z.pow_pos_nonneg; lia).
      eexists _, _. split; [|split; [|split; [reflexivity|]]]; [lia | lia |].
      rewrite pow2_frac. rewrite (Z.max_r e 0), (Z.max_l (- e) 0) by lia.
      unfold Qeq. simpl. rewrite Pos2Z.inj_mul, Z2Pos.id by lia. lia. }
  destruct (div_nearest_even_spec N D HN HD) as [Hm0 _].
  destruct (div_nearest_even_close N D HN HD) as [Hc1 Hc2].
  rewrite <- Hm in *. split; [done|].
  rewrite Hhalf, <- Hval.
  set (M := inject_Z m) in *. set (φ := N # Z.to_pos D) in *.
  set (P := (2 ^ e)%Q) in *. clearbody M φ P. split; nra.
Qed.

(** *** round64 *)

Lemma round64_zero (q : Q) : (q == 0)%Q → round64 q = Fin 0.
Proof.
  intros Hq. unfold round64. unfold Qeq in Hq. simpl in Hq.
  rewrite Z.mul_1_r in Hq. by rewrite Hq.
Qed.

Lemma round64_not_nan (q : Q) : round64 q ≠ NaN.
Proof.
  unfold round64. destruct (Qnum q); [done| |];
    by destruct (round_magnitude _ _).
Qed.

Lemma quantum_upper (n d : positive) (K : Z) :
  (Z.pos n # d < 2 ^ (K + 1))%Q → quantum n d <= Z.max (K - 52) (-1074).
Proof.
  intros Hlt. destruct (Qlog2_spec n d) as [Hlo _].
  assert (Qlog2 n d < K + 1).
  { apply pow2_lt_inv. eapply Qle_lt_trans; [exact Hlo | exact Hlt]. }
  unfold quantum. lia.
Qed.

Lemma quantum_normal (n d : positive) (K : Z) :
  (2 ^ K <= Z.pos n # d)%Q → -1022 <= K →
  quantum n d = Qlog2 n d - 52 ∧ (2 ^ (quantum n d + 52) <= Z.pos n # d)%Q.
Proof.
  intros Hle HK. destruct (Qlog2_spec n d) as [Hlo Hhi].
  assert (K < Qlog2 n d + 1).
  { apply pow2_lt_inv. eapply Qle_lt_trans; [exact Hle | exact Hhi]. }
  assert (quantum n d = Qlog2 n d - 52) as -> by (unfold quantum; lia).
  split; [done|]. by replace (Qlog2 n d - 52 + 52) with (Qlog2 n d) by lia.
Qed.

(** What [round_magnitude] returns is within half a quantum of the
    magnitude. *)
Lemma round_magnitude_close (n d : positive) (r : Q) :
  round_magnitude n d = Some r →
  (0 <= r)%Q
  ∧ (r - (Z.pos n # d) <= 2 ^ (quantum n d - 1))%Q
  ∧ ((Z.pos n # d) - r <= 2 ^ (quantum n d - 1))%Q.
Proof.
  unfold round_magnitude. destruct (_ && _); [done|]. intros [= <-].
  destruct (mantissa_close n d) as (Hm & H1 & H2).
  rewrite Qscale2_value. split; [|done].
  apply Qmult_le_0_compat; [|apply Qlt_le_weak, pow2_pos].
  change 0%Q with (inject_Z 0). by rewrite <- Zle_Qle.
Qed.

(** It overflows only from [2^1023] on. *)
Lemma round_magnitude_overflow (n d : positive) :
  round_magnitude n d = None → (2 ^ 1023 <= Z.pos n # d)%Q.
Proof.
  unfold round_magnitude.
  destruct (Z.leb_spec 0 (quantum n d)) as [He | He]; [|done].
  destruct (Z.leb_spec (2 ^ 1024) (mantissa n d * 2 ^ quantum n d)) as [Ho | Ho];
    [|done].
  intros _. destruct (mantissa_close n d) as (_ & H1 & _).
  destruct (Qlt_le_dec (Z.pos n # d) (2 ^ 1023)) as [Hlt | Hge]; [|done].
  exfalso. pose proof (quantum_upper n d 1022 Hlt) as Hq.
  assert (2 ^ 1024 <= inject_Z (mantissa n d) * 2 ^ quantum n d)%Q as Hbig.
  { rewrite <- (Zpower_Qpower 2 (quantum n d)) by done.
    rewrite <- inject_Z_mult.
    change (2 ^ 1024)%Q with (inject_Z (2 ^ 1024)). by rewrite <- Zle_Qle. }
  assert (2 ^ (quantum n d - 1) <= 2 ^ 970)%Q as Hsmall by (apply pow2_le; lia).
  set (M := (inject_Z (mantissa n d) * 2 ^ quantum n d)%Q) in *.
  set (h := (2 ^ (quantum n d - 1))%Q) in *. set (q := Z.pos n # d) in *.
  clearbody M h q.
  assert (2 ^ 1023 + 2 ^ 970 < 2 ^ 1024)%Q as Hc by done.
  lra.
Qed.

(** The sign of the rounded value. *)
Lemma round64_nonneg (q : Q) :
  (0 <= q)%Q → round64 q = PInf ∨ ∃ r, round64 q = Fin r ∧ (0 <= r)%Q.
Proof.
  destruct q as [[|n|n] d]; intros Hq; unfold round64; simpl.
  - right. by exists 0%Q.
  - destruct (round_magnitude n d) as [r|] eqn:E; [|by left].
    right. exists r. split; [done|]. by apply round_magnitude_close in E as [? _].
  - done.
Qed.

Lemma round64_nonpos (q : Q) :
  (q <= 0)%Q → round64 q = NInf ∨ ∃ r, round64 q = Fin r ∧ (r <= 0)%Q.
Proof.
  destruct q as [[|n|n] d]; intros Hq; unfold round64; simpl.
  - right. by exists 0%Q.
  - done.
  - destruct (round_magnitude n d) as [r|] eqn:E; [|by left].
    right. exists (- r)%Q. split; [done|].
    apply round_magnitude_close in E as [? _]. lra.
Qed.

(** Below [2^(K+1)] in magnitude the rounding error is at most
    [2^(K-53)] (half the least subnormal for a tiny value). *)
Lemma round64_close (q : Q) (K : Z) :
  (- 2 ^ (K + 1) < q)%Q → (q < 2 ^ (K + 1))%Q → K <= 1022 →
  ∃ r, round64 q = Fin r
       ∧ (r - q <= 2 ^ Z.max (K - 53) (-1075))%Q
       ∧ (q - r <= 2 ^ Z.max (K - 53) (-1075))%Q.
Proof.
  intros Hlo Hhi HK.
  pose proof (pow2_pos (Z.max (K - 53) (-1075))) as Hpos.
  assert (2 ^ (K + 1) <= 2 ^ 1023)%Q as Hmax by (apply pow2_le; lia).
  destruct q as [[|n|n] d]; unfold round64; simpl.
  - exists 0%Q. split; [done|].
    assert (0 # d == 0)%Q as -> by done. lra.
  - destruct (round_magnitude n d) as [r|] eqn:E.
    + exists r. split; [done|].
      apply round_magnitude_close in E as (_ & H1 & H2).
      pose proof (quantum_upper n d K Hhi) as Hq.
      assert (2 ^ (quantum n d - 1) <= 2 ^ Z.max (K - 53) (-1075))%Q
        by (apply pow2_le; lia).
      lra.
    + apply round_magnitude_overflow in E. lra.
  - assert (Z.pos n # d < 2 ^ (K + 1))%Q as Hhi'.
    { assert (Z.neg n # d == - (Z.pos n # d))%Q as Heq by done.
      rewrite Heq in Hlo. lra. }
    assert (Z.neg n # d == - (Z.pos n # d))%Q as Heq by done.
    destruct (round_magnitude n d) as [r|] eqn:E.
    + exists (- r)%Q. split; [done|].
      apply round_magnitude_close in E as (_ & H1 & H2).
      pose proof (quantum_upper n d K Hhi') as Hq.
      assert (2 ^ (quantum n d - 1) <= 2 ^ Z.max (K - 53) (-1075))%Q
        by (apply pow2_le; lia).
      rewrite Heq. lra.
    + apply round_magnitude_overflow in E. lra.
Qed.

(** A value that is at most [B] rounds to at most [B] plus the error
    bound. *)
Lemma round64_upper (q B : Q) (K : Z) :
  (q <= B)%Q → (0 < B)%Q → (B < 2 ^ (K + 1))%Q → K <= 1022 →
  round64 q = NInf
  ∨ ∃ r, round64 q = Fin r ∧ (r <= B + 2 ^ Z.max (K - 53) (-1075))%Q.
Proof.
  intros HqB HB HBK HK.
  pose proof (pow2_pos (Z.max (K - 53) (-1075))) as Hpos.
  destruct (Qlt_le_dec 0 q) as [Hq | Hq].
  - right. destruct (round64_close q K) as (r & -> & H1 & _); [lra | lra | done |].
    exists r. split; [done | lra].
  - destruct (round64_nonpos q Hq) as [-> | (r & -> & Hr)]; [by left|].
    right. exists r. split; [done | lra].
Qed.

(** A value that is at least a normal [A] keeps 53 bits of it. *)
Lemma round64_lower (q A : Q) :
  (A <= q)%Q → (2 ^ (-1022) <= A)%Q →
  round64 q = PInf
  ∨ ∃ r, round64 q = Fin r ∧ (A * (1 - 2 ^ (-53)) <= r)%Q.
Proof.
  intros HAq HA.
  pose proof (pow2_pos (-1022)) as Hpos.
  assert (0 < 2 ^ (-53))%Q as H53 by apply pow2_pos.
  assert (2 ^ (-53) < 1)%Q as H53' by done.
  assert (∀ e, 2 ^ (e - 1) == 2 ^ (e + 52) * 2 ^ (-53))%Q as Hh.
  { intros e. rewrite <- pow2_add. by replace (e + 52 + -53) with (e - 1) by lia. }
  set (u := (2 ^ (-53))%Q) in *. clearbody u.
  set (lo := (2 ^ (-1022))%Q) in *.
  destruct q as [[|n|n] d]; unfold round64; simpl.
  - assert (0 # d == 0)%Q as Heq by done. rewrite Heq in HAq. lra.
  - destruct (round_magnitude n d) as [r|] eqn:E; [|by left].
    right. exists r. split; [done|].
    apply round_magnitude_close in E as (_ & _ & H2).
    destruct (quantum_normal n d (-1022)) as [_ Hn]; [fold lo; lra | done |].
    rewrite Hh in H2.
    set (P := (2 ^ (quantum n d + 52))%Q) in *.
    set (qq := Z.pos n # d) in *. clearbody P qq lo.
    assert (0 <= (qq - P) * u)%Q by (apply Qmult_le_0_compat; lra).
    assert (0 <= (qq - A) * (1 - u))%Q by (apply Qmult_le_0_compat; lra).
    nra.
  - assert (Z.neg n # d == - (Z.pos n # d))%Q as Heq by done.
    rewrite Heq in HAq. assert (0 < Z.pos n # d)%Q by done. lra.
Qed.

Lemma div_nearest_even_1 (x : Z) : div_nearest_even x 1 = x.
Proof.
  rewrite <- (Z.mul_1_r x) at 1. by apply div_nearest_even_exact.
Qed.

(** Integers up to [2^53] in magnitude are float64 values. *)
Lemma round_magnitude_integer (n : positive) :
  Z.pos n <= 2 ^ 53 → round_magnitude n 1 = Some (inject_Z (Z.pos n)).
Proof.
  intros Hn.
  pose proof (Z.log2_spec (Z.pos n) ltac:(lia)) as [Ha1 Ha2].
  pose proof (Z.log2_nonneg (Z.pos n)) as Ha0.
  assert (Z.log2 (Z.pos n) <= 53) as Ha53.
  { rewrite <- (Z.log2_pow2 53) by lia. by apply Z.log2_le_mono. }
  assert (Qlog2 n 1 = Z.log2 (Z.pos n)) as Hk.
  { unfold Qlog2. change (Z.log2 1) with 0. rewrite Z.sub_0_r.
    destruct (Z.leb_spec 0 (Z.log2 (Z.pos n))); [|lia].
    destruct (Z.leb_spec (1 * 2 ^ Z.log2 (Z.pos n)) (Z.pos n)); [done | lia]. }
  assert (quantum n 1 = Z.log2 (Z.pos n) - 52) as He by (unfold quantum; lia).
  unfold round_magnitude, mantissa. rewrite He.
  set (a := Z.log2 (Z.pos n)) in *.
  destruct (Z.leb_spec 0 (a - 52)) as [Hge | Hlt].
  - destruct (Z.eq_dec a 52) as [E | Hne].
    + rewrite E. change (52 - 52) with 0. change (1 * 2 ^ 0) with 1.
      rewrite div_nearest_even_1. change (2 ^ 0) with 1.
      rewrite Z.mul_1_r.
      destruct (Z.leb_spec (2 ^ 1024) (Z.pos n)) as [Ho | Ho].
      * assert (2 ^ 53 < 2 ^ 1024) by done. lia.
      * unfold Qscale2. cbn [Z.leb Z.compare andb]. change (2 ^ 0) with 1.
        by rewrite Z.mul_1_r.
    + assert (a = 53) as E by lia. rewrite E in *.
      assert (Z.pos n = 2 ^ 53) as Hn'.
      { change (2 ^ 53) with 9007199254740992 in *. lia. }
      rewrite Hn'. reflexivity.
  - assert (0 < 2 ^ (- (a - 52))) as Hp by (apply Z.pow_pos_nonneg; lia).
    rewrite div_nearest_even_1. cbn [andb].
    unfold Qscale2. destruct (Z.leb_spec 0 (a - 52)); [lia|].
    rewrite <- (Qred_identity (inject_Z (Z.pos n))) by (simpl; apply Z.gcd_1_r).
    f_equal. apply Qred_complete. unfold Qeq. simpl.
    rewrite Z2Pos.id by lia. lia.
Qed.

Lemma round64_integer (z : Z) :
  Z.abs z <= 2 ^ 53 → round64 (inject_Z z) = Fin (inject_Z z).
Proof.
  intros Hz. destruct z as [|n|n]; unfold round64; simpl; [done| |];
    by rewrite round_magnitude_integer by lia.
Qed.

(** *** Truncation and the clamp *)

Lemma Qtrunc_nonneg (q : Q) : (0 <= q)%Q → Qtrunc q = Qfloor q.
Proof.
  destruct q as [n d]. unfold Qle, Qtrunc, Qfloor. simpl. intros Hn.
  apply Z.quot_div_nonneg; lia.
Qed.

Lemma Qtrunc_inject_Z (z : Z) : Qtrunc (inject_Z z) = z.
Proof. unfold Qtrunc. simpl. apply Z.quot_1_r. Qed.

Lemma Qle_bool_false (x y : Q) : Qle_bool x y = false → (y < x)%Q.
Proof.
  intros Hb. apply Qnot_le_lt. intros Hle.
  apply Qle_bool_iff in Hle. congruence.
Qed.

Lemma Qfloor_lt_0 (q : Q) : (q < 0)%Q → Qfloor q < 0.
Proof.
  intros Hq. destruct (Z_lt_le_dec (Qfloor q) 0) as [|Hge]; [done|].
  exfalso. apply (Qlt_not_le _ _ Hq).
  apply Qle_trans with (inject_Z (Qfloor q)); [|apply Qfloor_le].
  change 0%Q with (inject_Z 0). by rewrite <- Zle_Qle.
Qed.

Lemma of_Z_exact (z : Z) : Z.abs z <= 2 ^ 53 → of_Z z = Fin (inject_Z z).
Proof. apply round64_integer. Qed.

(** Clamping a finite value to [0, ub] and converting it to uint32 is
    the floor, clamped. *)
Lemma clamp_cast_floor (nonfinite ub : Z) (q : Q) :
  0 <= ub < 2 ^ 32 →
  astype_uint32 nonfinite
    (fminimum (Fin (inject_Z ub)) (fmaximum (Fin (inject_Z 0)) (Fin q)))
  = Z.max 0 (Z.min ub (Qfloor q)).
Proof.
  intros Hub. unfold fmaximum, fminimum, fle.
  destruct (Qle_bool (inject_Z 0) q) eqn:H0.
  - apply Qle_bool_iff in H0.
    assert (0 <= Qfloor q) as Hf.
    { rewrite <- (Qfloor_Z 0). by apply Qfloor_resp_le. }
    destruct (Qle_bool (inject_Z ub) q) eqn:H1; simpl.
    + apply Qle_bool_iff in H1.
      assert (ub <= Qfloor q).
      { rewrite <- (Qfloor_Z ub). by apply Qfloor_resp_le. }
      rewrite Qtrunc_inject_Z, Z.mod_small by lia. lia.
    + apply Qle_bool_false in H1.
      assert (Qfloor q <= ub).
      { rewrite <- (Qfloor_Z ub). apply Qfloor_resp_le. by apply Qlt_le_weak. }
      rewrite Qtrunc_nonneg by done. rewrite Z.mod_small by lia. lia.
  - apply Qle_bool_false in H0.
    assert (Qfloor q < 0) by (by apply Qfloor_lt_0).
    destruct (Qle_bool (inject_Z ub) (inject_Z 0)) eqn:H1; simpl.
    + apply Qle_bool_iff in H1. rewrite <- Zle_Qle in H1.
      rewrite Qtrunc_inject_Z, Z.mod_small by lia. lia.
    + rewrite Qtrunc_inject_Z, Z.mod_small by lia. lia.
Qed.

(** The same for any scaled value: an infinity gives the nearer bound,
    NaN goes through the clamp to the conversion. *)
Lemma clamp_cast_correct (nonfinite ub : Z) (s : npfloat) :
  0 <= ub < 2 ^ 32 →
  astype_uint32 nonfinite (fminimum (of_Z ub) (fmaximum (of_Z 0) s))
  = clamp_cast nonfinite ub s.
Proof.
  intros Hub. rewrite (of_Z_exact ub), (of_Z_exact 0).
  - destruct s as [q| | |]; [by apply clamp_cast_floor| | |done].
    + unfold fmaximum, fminimum, fle. simpl.
      rewrite Qtrunc_inject_Z. apply Z.mod_small. lia.
    + unfold fmaximum, fminimum, fle. cbn [clamp_cast].
      destruct (Qle_bool (inject_Z ub) (inject_Z 0)) eqn:E; simpl.
      * apply Qle_bool_iff in E. rewrite <- Zle_Qle in E.
        rewrite Qtrunc_inject_Z, Z.mod_small by lia. lia.
      * done.
  - done.
  - assert (2 ^ 32 < 2 ^ 53) by done. lia.
Qed.

Lemma clamp_cast_range (nonfinite ub : Z) (s : npfloat) :
  0 <= ub → s ≠ NaN → 0 <= clamp_cast nonfinite ub s <= ub.
Proof.
  intros Hub Hs. destruct s; cbn [clamp_cast]; unfold clamp_floor; try lia.
  done.
Qed.

Lemma clamp_floor_low (ub : Z) (q : Q) :
  0 <= ub → (q < 1)%Q → clamp_floor ub q = 0.
Proof.
  intros Hub Hq. unfold clamp_floor.
  assert (Qfloor q < 1); [|lia].
  destruct (Z_lt_le_dec (Qfloor q) 1) as [|Hge]; [done|]. exfalso.
  apply (Qlt_not_le _ _ Hq).
  apply Qle_trans with (inject_Z (Qfloor q)); [|apply Qfloor_le].
  change 1%Q with (inject_Z 1). by rewrite <- Zle_Qle.
Qed.

Lemma clamp_floor_high (ub : Z) (q : Q) :
  0 <= ub → (inject_Z ub <= q)%Q → clamp_floor ub q = ub.
Proof.
  intros Hub Hq. unfold clamp_floor.
  assert (ub <= Qfloor q); [|lia].
  rewrite <- (Qfloor_Z ub). by apply Qfloor_resp_le.
Qed.

(** The upper bound for the two accepted widths. *)
Lemma upper_bound_value (bits : Z) :
  bits = 10 ∨ bits = 16 → Z.shiftr 4294967295 (4 * 8 - bits) = 2 ^ bits - 1.
Proof. intros [-> | ->]; reflexivity. Qed.

(** ** Quantize *)

(** Sums and products that cannot be NaN. *)
Lemma fadd_finite_not_nan (a : npfloat) (y : Q) :
  a ≠ NaN → fadd a (Fin y) ≠ NaN.
Proof. destruct a; try done. intros _. apply round64_not_nan. Qed.

Lemma fadd_finite_not_nan_l (x : Q) (b : npfloat) :
  b ≠ NaN → fadd (Fin x) b ≠ NaN.
Proof. destruct b; try done. intros _. apply round64_not_nan. Qed.

Lemma fneg_not_nan (a : npfloat) : a ≠ NaN → fneg a ≠ NaN.
Proof. by destruct a. Qed.

Lemma fmul_positive_not_nan (x : Q) (b : npfloat) :
  (0 < x)%Q → b ≠ NaN → fmul (Fin x) b ≠ NaN.
Proof.
  intros Hx Hb.
  assert (fsign (Fin x) = 1) as Hs.
  { unfold fsign, Qlt_bool.
    destruct (Qle_bool x 0) eqn:E; [|done].
    apply Qle_bool_iff in E. lra. }
  destruct b; try done; unfold fmul; rewrite ?Hs; try done.
  apply round64_not_nan.
Qed.

Lemma fmul_positive_infinity (x : Q) :
  (0 < x)%Q → fmul (Fin x) PInf = PInf ∧ fmul (Fin x) NInf = NInf.
Proof.
  intros Hx.
  assert (fsign (Fin x) = 1) as Hs.
  { unfold fsign, Qlt_bool.
    destruct (Qle_bool x 0) eqn:E; [|done].
    apply Qle_bool_iff in E. lra. }
  unfold fmul. by rewrite Hs.
Qed.

Section QuantizeProperties.
Context `{Collaborators}.

(** One coordinate of [__call__]: the scaled value, clamped and
    converted. *)
Lemma quantize_coord_clamp_cast (ub : Z) (s o v : npfloat) :
  0 <= ub < 2 ^ 32 →
  quantize_coord ub s o v
  = clamp_cast nonfinite_as_uint32 ub (scaled_value s o v).
Proof. intros Hub. unfold quantize_coord. by apply clamp_cast_correct. Qed.

(** What [Quantize.__init__] builds for an accepted width. *)
Lemma Quantize_init_accepted (bits : Z) (fo fs io : vec3) :
  bits = 10 ∨ bits = 16 →
  Quantize_init fo fs io bits
  = Ok {| upper_bound := 2 ^ bits - 1;
          scale := vmap (fdiv (of_Z (2 ^ bits - 1))) fs;
          offset :=
            vzip fadd (vzip fsub io fo)
              (vmap (fdiv (Fin (1 # 2)))
                    (vmap (fdiv (of_Z (2 ^ bits - 1))) fs)) |}.
Proof.
  intros Hbits. unfold Quantize_init.
  assert ((4 * 8 - bits <? 0) = false) as -> by (destruct Hbits; subst; done).
  by rewrite upper_bound_value.
Qed.

End QuantizeProperties.

(** *** The quantizer of a grid cell *)

(** The offset of the cell that starts at [k]: [h - k] up to the error
    of the two float64 operations that compute it. *)
Lemma cell_offset_close (k : Z) (h : Q) :
  0 <= k < 2 ^ 32 → (0 < h)%Q → (h < 1)%Q →
  ∃ o, fadd (fsub (of_Z 0) (of_Z k)) (Fin h) = Fin o
       ∧ (o - (h - inject_Z k) <= 2 ^ (-22) + 2 ^ (-21))%Q
       ∧ ((h - inject_Z k) - o <= 2 ^ (-22) + 2 ^ (-21))%Q.
Proof.
  intros Hk Hh0 Hh1.
  assert (2 ^ 32 < 2 ^ 53) as H53 by done.
  rewrite (of_Z_exact 0), (of_Z_exact k) by (done || lia).
  assert (0 <= inject_Z k)%Q as Hk0.
  { change 0%Q with (inject_Z 0). rewrite <- Zle_Qle. lia. }
  assert (inject_Z k < 2 ^ (31 + 1))%Q as Hk1.
  { change (2 ^ (31 + 1))%Q with (inject_Z (2 ^ 32)). rewrite <- Zlt_Qlt. lia. }
  assert (2 ^ (31 + 1) + 1 + 1 < 2 ^ (32 + 1))%Q as Hk2 by done.
  assert (2 ^ (-22) < 1)%Q as Hd by done.
  pose proof (pow2_pos (31 + 1)) as Hp.
  unfold fsub, fneg, fadd.
  destruct (round64_close (inject_Z 0 + - inject_Z k) 31)
    as (r0 & -> & H1 & H2); [ change (inject_Z 0) with 0%Q; lra
                            | change (inject_Z 0) with 0%Q; lra | lia |].
  change (Z.max (31 - 53) (-1075)) with (-22) in H1, H2.
  change (inject_Z 0) with 0%Q in H1, H2.
  set (d1 := (2 ^ (-22))%Q) in *. set (p32 := (2 ^ (31 + 1))%Q) in *.
  set (p33 := (2 ^ (32 + 1))%Q) in *.
  destruct (round64_close (r0 + h) 32) as (o & -> & H3 & H4);
    [fold p33; lra | fold p33; lra | lia |].
  change (Z.max (32 - 53) (-1075)) with (-21) in H3, H4.
  exists o. split; [done|]. lra.
Qed.

Section CellQuantizer.
Context `{Collaborators}.

(** One axis of a cell's quantizer, for a bound [ub] and the half step
    [h] that float64 computes for it. *)
Lemma cell_axis_saturated (ub k : Z) (h v : Q) :
  1023 <= ub < 2 ^ 32 →
  (2 ^ (-22) + 2 ^ (-21) <= h)%Q →
  (inject_Z ub * (h + (2 ^ (-22) + 2 ^ (-21)) + 2 ^ (-63)) + 2 ^ (-54) < 1)%Q →
  (1 <= (1 + h - (2 ^ (-22) + 2 ^ (-21))) * (1 - 2 ^ (-53)) * (1 - 2 ^ (-53)))%Q →
  saturated ub k v
    (clamp_cast nonfinite_as_uint32 ub
       (scaled_value (Fin (inject_Z ub))
          (fadd (fsub (of_Z 0) (of_Z k)) (Fin h)) (Fin v))).
Proof.
  intros Hub Hh Hlow Hhigh Hk.
  assert (1023 <= inject_Z ub)%Q as Hubq.
  { change 1023%Q with (inject_Z 1023). rewrite <- Zle_Qle. lia. }
  assert (0 < 2 ^ (-22) + 2 ^ (-21))%Q as Hd by done.
  assert (0 < 2 ^ (-63))%Q as He1 by done.
  assert (0 < 2 ^ (-54))%Q as He2 by done.
  assert (0 < 2 ^ (-53))%Q as Hu0 by done.
  assert (2 ^ (-53) < 1)%Q as Hu1 by done.
  assert (2 ^ (-9) == 1 # 512)%Q as H9 by done.
  assert (2 ^ 0 == 1)%Q as H0 by done.
  assert (2 ^ (-1022) < 1)%Q as Hmin by done.
  pose proof (pow2_pos (-1022)) as Hminpos.
  set (δ := (2 ^ (-22) + 2 ^ (-21))%Q) in *.
  set (e1 := (2 ^ (-63))%Q) in *. set (e2 := (2 ^ (-54))%Q) in *.
  set (u := (2 ^ (-53))%Q) in *. set (lo := (2 ^ (-1022))%Q) in *.
  set (U := inject_Z ub) in *.
  assert (h + δ < 1 # 1023)%Q as Hh1.
  { clearbody δ e1 e2 u lo U. nra. }
  destruct (cell_offset_close k h Hk) as (o & -> & Ho1 & Ho2);
    [clearbody δ; lra | lra |].
  fold δ in Ho1, Ho2. unfold scaled_value, fadd.
  destruct (fmul_positive_infinity U ltac:(lra)) as [Hpinf Hninf].
  split.
  - intros Hv.
    destruct (round64_upper (v + o) (h + δ) (-10))
      as [-> | (rt & -> & Hrt)];
      [lra | lra | change (-10 + 1) with (-9); rewrite H9; lra | lia | |].
    { by rewrite Hninf. }
    change (Z.max (-10 - 53) (-1075)) with (-63) in Hrt. fold e1 in Hrt.
    unfold fmul.
    assert (U * rt <= U * (h + δ + e1))%Q as Hprod.
    { apply Qmult_le_l; lra. }
    destruct (round64_upper (U * rt) (U * (h + δ + e1)) (-1))
      as [-> | (rs & -> & Hrs)];
      [ done
      | apply Qmult_lt_0_compat; lra
      | change (-1 + 1) with 0; rewrite H0; lra
      | lia | done |].
    change (Z.max (-1 - 53) (-1075)) with (-54) in Hrs. fold e2 in Hrs.
    cbn [clamp_cast]. apply clamp_floor_low; [lia | lra].
  - intros Hv.
    assert (1 <= 1 + h - δ)%Q as HA by lra.
    destruct (round64_lower (v + o) (1 + h - δ))
      as [-> | (rt & -> & Hrt)]; [lra | fold lo; lra | |].
    { by rewrite Hpinf. }
    fold u in Hrt. unfold fmul.
    assert (U * ((1 + h - δ) * (1 - u)) <= U * rt)%Q as Hprod.
    { apply Qmult_le_l; lra. }
    assert (1 <= (1 + h - δ) * (1 - u))%Q as HA1.
    { clearbody δ e1 e2 u lo U. nra. }
    destruct (round64_lower (U * rt) (U * ((1 + h - δ) * (1 - u))))
      as [-> | (rs & -> & Hrs)]; [done | | done |].
    { fold lo. clearbody δ e1 e2 u lo U. nra. }
    fold u in Hrs. cbn [clamp_cast]. apply clamp_floor_high; [lia|].
    fold U. clearbody δ e1 e2 u lo U. nra.
Qed.

(** The scaled value of a finite coordinate is never NaN. *)
Lemma cell_axis_not_nan (ub k : Z) (h v : Q) :
  0 < ub →
  scaled_value (Fin (inject_Z ub))
    (fadd (fsub (of_Z 0) (of_Z k)) (Fin h)) (Fin v) ≠ NaN.
Proof.
  intros Hub. unfold scaled_value. apply fmul_positive_not_nan.
  - change 0%Q with (inject_Z 0). rewrite <- Zlt_Qlt. lia.
  - apply fadd_finite_not_nan_l, fadd_finite_not_nan.
    unfold fsub. rewrite (of_Z_exact 0) by done.
    apply fadd_finite_not_nan_l, fneg_not_nan, round64_not_nan.
Qed.

(** The quantizer both decompositions build for a cell: the scale is
    the upper bound on every axis, the offset is the half step minus
    the cell's origin. *)
Lemma cell_quantizer_parameters (bits x y z : Z) :
  bits = 10 ∨ bits = 16 →
  ∃ h : Q,
    cell_quantizer (x, y, z) bits
    = Ok {| upper_bound := 2 ^ bits - 1;
            scale := (Fin (inject_Z (2 ^ bits - 1)),
                      Fin (inject_Z (2 ^ bits - 1)),
                      Fin (inject_Z (2 ^ bits - 1)));
            offset := (fadd (fsub (of_Z 0) (of_Z x)) (Fin h),
                       fadd (fsub (of_Z 0) (of_Z y)) (Fin h),
                       fadd (fsub (of_Z 0) (of_Z z)) (Fin h)) |}
    ∧ (2 ^ (-22) + 2 ^ (-21) <= h)%Q
    ∧ (inject_Z (2 ^ bits - 1) * (h + (2 ^ (-22) + 2 ^ (-21)) + 2 ^ (-63))
       + 2 ^ (-54) < 1)%Q
    ∧ (1 <= (1 + h - (2 ^ (-22) + 2 ^ (-21)))
            * (1 - 2 ^ (-53)) * (1 - 2 ^ (-53)))%Q.
Proof.
  intros Hbits. unfold cell_quantizer.
  rewrite Quantize_init_accepted by done.
  unfold vec3_of_Z. cbn [vmap vzip fst snd].
  destruct Hbits as [-> | ->].
  - assert (fdiv (of_Z (2 ^ 10 - 1)) (of_Z 1) = Fin (inject_Z (2 ^ 10 - 1)))
      as -> by (vm_compute; reflexivity).
    destruct (fdiv (Fin (1 # 2)) (Fin (inject_Z (2 ^ 10 - 1)))) as [h| | |] eqn:E;
      try (vm_compute in E; discriminate E).
    exists h. split; [done|].
    vm_compute in E. injection E as <-. by vm_compute.
  - assert (fdiv (of_Z (2 ^ 16 - 1)) (of_Z 1) = Fin (inject_Z (2 ^ 16 - 1)))
      as -> by (vm_compute; reflexivity).
    destruct (fdiv (Fin (1 # 2)) (Fin (inject_Z (2 ^ 16 - 1)))) as [h| | |] eqn:E;
      try (vm_compute in E; discriminate E).
    exists h. split; [done|].
    vm_compute in E. injection E as <-. by vm_compute.
Qed.

End CellQuantizer.

Section QuantizeClaims.
Context `{Collaborators}.

(** C6. For quantization_bits 10 or 16 the quantizer of a grid cell
    (as both decompositions build it) has [upper_bound = 2^bits - 1],
    and for every finite vertex each quantized component lies in
    [0, 2^bits - 1] and saturates: it is 0 for a coordinate at or below
    the cell's lower face and [2^bits - 1] for a coordinate at or
    beyond its upper face, in float64 arithmetic. *)
Theorem quantize_output_in_range (bits x y z : Z) (vs : list (Q * Q * Q)) :
  bits = 10 ∨ bits = 16 →
  ∃ q, cell_quantizer (x, y, z) bits = Ok q
       ∧ upper_bound q = 2 ^ bits - 1
       ∧ Forall2 (fun v t =>
                    in_range3 0 (2 ^ bits - 1) t
                    ∧ saturated (2 ^ bits - 1) x v.1.1 t.1.1
                    ∧ saturated (2 ^ bits - 1) y v.1.2 t.1.2
                    ∧ saturated (2 ^ bits - 1) z v.2 t.2)
                 vs (Quantize_call q (map finite3 vs)).
Proof.
  intros Hbits.
  destruct (cell_quantizer_parameters bits x y z Hbits)
    as (h & -> & Hh & Hlow & Hhigh).
  eexists. split; [done|]. split; [done|].
  assert (1023 <= 2 ^ bits - 1 < 2 ^ 32) as Hub by (destruct Hbits; subst; done).
  unfold Quantize_call. cbn [upper_bound scale offset].
  rewrite map_map. apply Forall2_fmap_r, Forall_Forall2_diag, Forall_forall.
  intros [[vx vy] vz] _. unfold compose. cbn [finite3 fst snd].
  rewrite !quantize_coord_clamp_cast by lia. unfold in_range3. cbn [fst snd].
  split; [|split; [|split]].
  - repeat split;
      apply clamp_cast_range; (lia || (apply cell_axis_not_nan; lia)).
  - by apply cell_axis_saturated.
  - by apply cell_axis_saturated.
  - by apply cell_axis_saturated.
Qed.

(** C7, as the code has it. For an accepted width, any quantizer setup
    and any vertex, each component is the float64 value
    [scale * (v + offset)] clamped to [0, upper_bound] and then
    truncated by the conversion to uint32: for a finite scaled value
    [clamp(0, upper_bound, floor(scale * (v + offset)))].  Nothing is
    rounded to the nearest integer. *)
Theorem quantize_call_is_clamped_floor (bits : Z) (fo fs io v : vec3) :
  bits = 10 ∨ bits = 16 →
  ∃ q, Quantize_init fo fs io bits = Ok q
       ∧ upper_bound q = 2 ^ bits - 1
       ∧ Quantize_call q [v]
         = [(clamp_cast nonfinite_as_uint32 (upper_bound q)
               (scaled_value (coord AxX (scale q)) (coord AxX (offset q))
                             (coord AxX v)),
             clamp_cast nonfinite_as_uint32 (upper_bound q)
               (scaled_value (coord AxY (scale q)) (coord AxY (offset q))
                             (coord AxY v)),
             clamp_cast nonfinite_as_uint32 (upper_bound q)
               (scaled_value (coord AxZ (scale q)) (coord AxZ (offset q))
                             (coord AxZ v)))].
Proof.
  intros Hbits. rewrite Quantize_init_accepted by done.
  eexists. split; [done|]. split; [done|].
  assert (0 <= 2 ^ bits - 1 < 2 ^ 32) as Hub by (destruct Hbits; subst; done).
  unfold Quantize_call. cbn [map upper_bound scale offset].
  destruct v as [[vx vy] vz].
  destruct (vmap _ fs) as [[sx sy] sz].
  destruct (vzip fadd _ _) as [[ox oy] oz].
  cbn [coord]. by rewrite !quantize_coord_clamp_cast.
Qed.

End QuantizeClaims.

Lemma quantize_output_in_range_witness :
  ∃ q, cell_quantizer (1, 0, 0) 10 = Ok q
       ∧ upper_bound q = 2 ^ 10 - 1
       ∧ Forall2 (fun v t =>
                    in_range3 0 (2 ^ 10 - 1) t
                    ∧ saturated (2 ^ 10 - 1) 1 v.1.1 t.1.1
                    ∧ saturated (2 ^ 10 - 1) 0 v.1.2 t.1.2
                    ∧ saturated (2 ^ 10 - 1) 0 v.2 t.2)
                 [(1, 0, 1 # 2)%Q; (2, 1, 5)%Q]
                 (Quantize_call (H := StandIn.collaborators) q
                    (map finite3 [(1, 0, 1 # 2)%Q; (2, 1, 5)%Q])).
Proof.
  apply (quantize_output_in_range (H := StandIn.collaborators) 10 1 0 0).
  by left.
Defined.

Lemma quantize_call_is_clamped_floor_witness :
  ∃ q, Quantize_init (vec3_of_Z 0 0 0) (vec3_of_Z 1 1 1) (vec3_of_Z 0 0 0) 16
       = Ok q
       ∧ upper_bound q = 2 ^ 16 - 1
       ∧ Quantize_call (H := StandIn.collaborators) q
           [finite3 (1 # 4, 1 # 2, 1)%Q]
         = [(clamp_cast 0 (upper_bound q)
               (scaled_value (coord AxX (scale q)) (coord AxX (offset q))
                             (Fin (1 # 4))),
             clamp_cast 0 (upper_bound q)
               (scaled_value (coord AxY (scale q)) (coord AxY (offset q))
                             (Fin (1 # 2))),
             clamp_cast 0 (upper_bound q)
               (scaled_value (coord AxZ (scale q)) (coord AxZ (offset q))
                             (Fin 1)))].
Proof.
  apply (quantize_call_is_clamped_floor (H := StandIn.collaborators) 16
           (vec3_of_Z 0 0 0) (vec3_of_Z 1 1 1) (vec3_of_Z 0 0 0)
           (finite3 (1 # 4, 1 # 2, 1)%Q)).
  by right.
Defined.

(** C7, counterexample. At 10 bits, cell origin 0 and the vertex
    (1/4096, 0, 0), the scaled x value is about 0.7498: the code yields
    0 where rounding to nearest yields 1. *)
Lemma quantize_rounds_to_nearest_counterexample :
  ∃ q, cell_quantizer (0, 0, 0) 10 = Ok q
       ∧ Quantize_call (H := StandIn.collaborators) q
           [finite3 (1 # 4096, 0, 0)%Q] = [(0, 0, 0)]
       ∧ quantize_coord_spec (upper_bound q) (coord AxX (scale q))
           (coord AxX (offset q)) (Fin (1 # 4096)) = 1.
Proof.
  eexists. split; [reflexivity|]. split; vm_compute; reflexivity.
Qed.

(** The rounding of float64 shows in the result: for the x coordinate
    [0x1.0040100401004p-11] at 10 bits and cell origin 0, the exact
    value of [1023 * (x + 0.5/1023)] is below 1, the float64 product is
    1.0, and the quantized coordinate is 1. *)
Lemma quantize_float64_rounding_example :
  let x := (4508001973047300 # 9223372036854775808)%Q in
  ∃ q, cell_quantizer (0, 0, 0) 10 = Ok q
       ∧ Quantize_call (H := StandIn.collaborators) q
           [finite3 (x, 0, 0)%Q] = [(1, 0, 0)]
       ∧ scaled_value (coord AxX (scale q)) (coord AxX (offset q)) (Fin x)
         = Fin 1
       ∧ (1023 * (x + (1 # 2) / 1023) < 1)%Q.
Proof.
  eexists. split; [reflexivity|]. split; [vm_compute; reflexivity|].
  split; vm_compute; reflexivity.
Qed.

(** ** scale_mesh *)

Lemma coord_fold_left (f : npfloat → npfloat → npfloat) (ax : axis)
    (l : list vec3) (v : vec3) :
  coord ax (fold_left (vzip f) l v) = fold_left f (map (coord ax) l) (coord ax v).
Proof.
  revert v. induction l as [|w l IH]; intros v; [done|].
  simpl. rewrite IH. f_equal.
  destruct v as [[? ?] ?], w as [[? ?] ?]. by destruct ax.
Qed.

Lemma same_value_fold (f : npfloat → npfloat → npfloat) (c : npfloat)
    (l : list npfloat) (a : npfloat) :
  (∀ x y, same_value x c → same_value y c → same_value (f x y) c) →
  same_value a c → Forall (fun x => same_value x c) l →
  same_value (fold_left f l a) c.
Proof.
  intros Hf. revert a. induction l as [|b l IH]; intros a Ha Hl; [done|].
  inversion Hl; subst. simpl. apply IH; [by apply Hf | done].
Qed.

Lemma same_value_fmaximum (c x y : npfloat) :
  same_value x c → same_value y c → same_value (fmaximum x y) c.
Proof.
  destruct c, x, y; simpl; try done.
  intros. by destruct (Qle_bool _ _).
Qed.

Lemma same_value_fminimum (c x y : npfloat) :
  same_value x c → same_value y c → same_value (fminimum x y) c.
Proof.
  destruct c, x, y; simpl; try done.
  intros. by destruct (Qle_bool _ _).
Qed.

Lemma Qlt_bool_irrefl (x y : Q) : (x == y)%Q → Qlt_bool x y = false.
Proof.
  intros Hxy. unfold Qlt_bool.
  assert (Qle_bool y x = true) as ->; [|done].
  apply Qle_bool_iff. rewrite Hxy. apply Qle_refl.
Qed.

Lemma fsign_zero (x : Q) : (x == 0)%Q → fsign (Fin x) = 0.
Proof.
  intros Hx. unfold fsign.
  rewrite (Qlt_bool_irrefl 0 x) by (by symmetry).
  by rewrite (Qlt_bool_irrefl x 0).
Qed.

(** Rescaling a coordinate that equals both the minimum and the maximum
    of its axis: 0/0 in one form or another. *)
Lemma rescale_flat_coordinate (scale : Z) (c mx mn v : npfloat) :
  same_value mx c → same_value mn c → same_value v c →
  fmul (fdiv (of_Z scale) (fsub mx mn)) (fsub v mn) = NaN.
Proof.
  generalize (of_Z scale). intros t.
  destruct c as [q| | |], mx as [a| | |], mn as [b| | |], v as [d| | |];
    cbn [same_value]; try done; try (by destruct t).
  intros Ha Hb Hd. unfold fsub, fneg, fadd.
  assert (a + - b == 0)%Q as Hab by (rewrite Ha, Hb; ring).
  assert (d + - b == 0)%Q as Hdb by (rewrite Hd, Hb; ring).
  rewrite (round64_zero _ Hab), (round64_zero _ Hdb).
  destruct t as [s| | |]; try done.
  unfold fdiv. change (Qeq_bool 0 0) with true. cbv iota.
  generalize (fsign (Fin s)). intros sg. unfold inf_of_sign.
  by destruct (0 <? sg); [|destruct (sg <? 0)].
Qed.

(** C10. For a mesh with at least one vertex whose vertices all have
    the same coordinate on some axis, [scale_mesh] does not raise: it
    returns a mesh with as many vertices, each of which has NaN on that
    axis. *)
Theorem scale_mesh_flat_axis_nan (mesh : Mesh) (scale : Z) (ax : axis)
    (c : npfloat) :
  vertices mesh ≠ [] →
  Forall (fun v => same_value (coord ax v) c) (vertices mesh) →
  ∃ scaled, scale_mesh mesh scale = Ok scaled
            ∧ faces scaled = faces mesh
            ∧ length (vertices scaled) = length (vertices mesh)
            ∧ Forall (fun v => coord ax v = NaN) (vertices scaled).
Proof.
  intros Hne Hflat. unfold scale_mesh.
  destruct (vertices mesh) as [|v0 rest] eqn:Hvs; [done|].
  cbn [array_max array_min rbind]. eexists. split; [done|]. split; [done|].
  cbn [vertices with_vertices]. split; [by rewrite length_map|].
  set (mx := fold_left (vzip fmaximum) rest v0).
  set (mn := fold_left (vzip fminimum) rest v0).
  inversion Hflat as [|? ? H0 Hrest]; subst.
  assert (same_value (coord ax mx) c) as Hmx.
  { unfold mx. rewrite coord_fold_left.
    apply same_value_fold; [apply same_value_fmaximum | done |].
    by apply Forall_map. }
  assert (same_value (coord ax mn) c) as Hmn.
  { unfold mn. rewrite coord_fold_left.
    apply same_value_fold; [apply same_value_fminimum | done |].
    by apply Forall_map. }
  apply Forall_map. eapply Forall_impl; [exact Hflat|].
  intros v Hv. cbn beta.
  pose proof (rescale_flat_coordinate scale c _ _ _ Hmx Hmn Hv) as Hnan.
  destruct v as [[? ?] ?], mx as [[? ?] ?], mn as [[? ?] ?].
  by destruct ax.
Qed.

Lemma scale_mesh_flat_axis_nan_witness :
  ∃ scaled,
    scale_mesh {| vertices := [finite3 (0, 0, 5)%Q; finite3 (1, 2, 5)%Q];
                  faces := [] |} 4 = Ok scaled
    ∧ faces scaled = []
    ∧ length (vertices scaled) = 2%nat
    ∧ Forall (fun v => coord AxZ v = NaN) (vertices scaled).
Proof.
  apply (scale_mesh_flat_axis_nan
           {| vertices := [finite3 (0, 0, 5)%Q; finite3 (1, 2, 5)%Q];
              faces := [] |} 4 AxZ (Fin 5)).
  - discriminate.
  - repeat constructor.
Defined.

(** ** The bit-width guards and the array-taking entry points *)

Section Guards.
Context `{Collaborators}.

(** mesh.py: the assertion rejects exactly the widths other than 10 and
    16, before anything else happens. *)
Lemma fulloctree_decomposition_mesh_rejects (mesh : Mesh) (num_lods : Z)
    (segment_id directory : string) (bits compression_level : Z)
    (mesh_subdirectory : string) :
  bits ≠ 10 → bits ≠ 16 →
  fulloctree_decomposition_mesh mesh num_lods segment_id directory bits
    compression_level mesh_subdirectory = ([], Raise AssertionError).
Proof.
  intros H10 H16. unfold fulloctree_decomposition_mesh.
  apply Z.eqb_neq in H10, H16. by rewrite H10, H16.
Qed.

(** C1, on encoder.py. The guard [(bits != 10) or (bits != 16)] holds
    for every integer, so [fulloctree_decomposition] of encoder.py
    raises ValueError for every width, 10 and 16 included, and performs
    no file-system event. *)
Theorem encoder_fulloctree_decomposition_always_raises (mesh : Mesh)
    (num_lods : Z) (segment_id directory : string)
    (bits compression_level : Z) (mesh_subdirectory : string) :
  encoder_fulloctree_decomposition mesh num_lods segment_id directory bits
    compression_level mesh_subdirectory = ([], Raise ValueError).
Proof.
  unfold encoder_fulloctree_decomposition.
  destruct (bits =? 10) eqn:H10; [|done].
  destruct (bits =? 16) eqn:H16; [|done].
  apply Z.eqb_eq in H10, H16. lia.
Qed.

(** C9. [density_decomposition] of mesh.py performs no file-system
    event and raises for every input: the call it makes leaves out the
    required [directory], so as soon as the Trimesh object is built the
    call raises TypeError. *)
Theorem density_decomposition_raises_TypeError (fuel : nat)
    (vs : list vec3) (fs : list (Z * Z * Z)) (segment_id directory : string)
    (minimum_vertices bits compression_level : Z)
    (mesh_subdirectory : string) :
  ∃ e, density_decomposition fuel vs fs segment_id directory
         minimum_vertices bits compression_level mesh_subdirectory
       = Some ([], Raise e)
       ∧ ∀ mesh, Trimesh_new vs fs = Ok mesh → e = TypeError.
Proof.
  unfold density_decomposition.
  destruct (Trimesh_new vs fs) as [mesh|e].
  - exists TypeError. by split.
  - exists e. split; [done|]. intros mesh Hm. discriminate Hm.
Qed.

End Guards.

(** ** generate_mesh_dataframe *)

(** [dict_count[lod]] holds, for every cell of the grid, whether its
    count exceeds the threshold. *)
Lemma level_fold_lookup (minvertices : Z) (f : cell → Z) (cells : list cell)
    (d : gmap cell bool) (c : cell) :
  fold_left (fun d cc => <[cc.1 := (minvertices <? cc.2)]> d)
            (map (fun c => (c, f c)) cells) d !! c
  = if decide (c ∈ cells) then Some (minvertices <? f c) else d !! c.
Proof.
  revert d. induction cells as [|c0 cells IH]; intros d; simpl.
  - done.
  - rewrite IH. destruct (decide (c = c0)) as [->|Hne].
    + rewrite lookup_insert_eq.
      rewrite (decide_True (P := c0 ∈ c0 :: cells)) by apply list_elem_of_here.
      by case_decide.
    + rewrite lookup_insert_ne by done.
      case_decide as Hin.
      * by rewrite decide_True by (by apply list_elem_of_further).
      * rewrite decide_False; [done|].
        intros Hin'. apply elem_of_cons in Hin' as [|]; done.
Qed.

Lemma level_dict_lookup (vs : list vec3) (minvertices : Z)
    (minvertex maxvertex : vec3) (lod : Z) (c : cell) :
  level_dict minvertices (level_counts vs minvertex maxvertex lod) !! c
  = if decide (c ∈ grid_cells (2 ^ lod + 1 - 1))
    then Some (minvertices <? count_cell vs minvertex maxvertex lod c)
    else None.
Proof.
  unfold level_dict, level_counts. rewrite level_fold_lookup.
  by case_decide.
Qed.

(** A level that does not stop the loop has a cell above the threshold. *)
Lemma not_all_below_cell (vs : list vec3) (minvertices : Z)
    (minvertex maxvertex : vec3) (lod : Z) :
  all_below minvertices (level_counts vs minvertex maxvertex lod) = false →
  ∃ c, c ∈ grid_cells (2 ^ lod + 1 - 1)
       ∧ minvertices < count_cell vs minvertex maxvertex lod c.
Proof.
  unfold all_below, level_counts. generalize (grid_cells (2 ^ lod + 1 - 1)).
  intros cells. induction cells as [|c cells IH]; simpl; [done|].
  destruct (count_cell vs minvertex maxvertex lod c <=? minvertices) eqn:E.
  - simpl. intros Hf. destruct (IH Hf) as (c' & Hin & Hc').
    exists c'. split; [by apply list_elem_of_further | done].
  - intros _. exists c. split; [apply list_elem_of_here|].
    apply Z.leb_gt in E. lia.
Qed.

(** The loop, started at [lod] with [n] levels to go before the first
    one whose cells are all at or below the threshold: with more than
    [n] units of fuel it returns that level's index, the levels before
    it added to the dictionary and that level itself deleted. *)
Lemma level_loop_halts (vs : list vec3) (minvertices : Z)
    (minvertex maxvertex : vec3) (n : nat) :
  ∀ (fuel : nat) (lod : Z) (dict : gmap Z (gmap cell bool)),
    (n < fuel)%nat →
    (∀ j, lod <= j < lod + Z.of_nat n →
          all_below minvertices (level_counts vs minvertex maxvertex j) = false) →
    all_below minvertices
      (level_counts vs minvertex maxvertex (lod + Z.of_nat n)) = true →
    ∃ dict',
      level_loop fuel vs minvertices minvertex maxvertex lod dict
      = Some (lod + Z.of_nat n, dict')
      ∧ ∀ j, dict' !! j =
             if decide (lod <= j < lod + Z.of_nat n)
             then Some (level_dict minvertices
                          (level_counts vs minvertex maxvertex j))
             else if decide (j = lod + Z.of_nat n) then None else dict !! j.
Proof.
  induction n as [|n IH]; intros fuel lod dict Hfuel Hbefore Hstop.
  - destruct fuel as [|fuel]; [lia|]. simpl.
    replace (lod + Z.of_nat 0) with lod in * by lia.
    rewrite Hstop. eexists. split; [done|]. intros j.
    rewrite decide_False by lia.
    case_decide as Hj.
    + subst. apply lookup_delete_eq.
    + rewrite lookup_delete_ne by done. by rewrite lookup_insert_ne.
  - destruct fuel as [|fuel]; [lia|]. simpl.
    rewrite (Hbefore lod) by lia.
    destruct (IH fuel (lod + 1)
                (<[lod := level_dict minvertices
                            (level_counts vs minvertex maxvertex lod)]> dict))
      as (dict' & Hloop & Hlookup).
    + lia.
    + intros j Hj. apply Hbefore. lia.
    + replace (lod + 1 + Z.of_nat n) with (lod + Z.of_nat (S n)) by lia.
      exact Hstop.
    + exists dict'. split.
      * rewrite Hloop. do 2 f_equal. lia.
      * intros j. rewrite Hlookup.
        replace (lod + 1 + Z.of_nat n) with (lod + Z.of_nat (S n)) by lia.
        destruct (decide (j = lod)) as [->|Hne].
        -- rewrite decide_False by lia. rewrite decide_False by lia.
           rewrite decide_True by lia. apply lookup_insert_eq.
        -- repeat case_decide; try lia; try done.
           by rewrite lookup_insert_ne.
Qed.

(** C3. What the code does with the halting level.  When the loop is
    entered (the threshold does not exceed the number of vertices, and
    there is a vertex) and [k >= 1] is the first level whose cells are
    all at or below the threshold, then with [k] units of fuel the
    function returns [num_lods = k] and a dictionary that holds the
    levels [0 .. k-1] and not level [k]: the halting level is deleted,
    it does not become the last level.  The last level returned,
    [k-1], therefore has a cell flagged True: the root, or a cell whose
    count exceeds the threshold. *)
Theorem generate_mesh_dataframe_drops_halting_level (fuel : nat)
    (vs : list vec3) (minvertices : Z) (minvertex maxvertex : vec3) (k : Z) :
  minvertices <= Z.of_nat (length vs) →
  array_max vs = Ok maxvertex →
  array_min vs = Ok minvertex →
  1 <= k →
  all_below minvertices (level_counts vs minvertex maxvertex k) = true →
  (∀ j, 1 <= j < k →
        all_below minvertices (level_counts vs minvertex maxvertex j) = false) →
  (Z.to_nat k <= fuel)%nat →
  ∃ dict,
    generate_mesh_dataframe fuel vs minvertices = Some (Ok (k, dict))
    ∧ dict !! k = None
    ∧ (∀ j, 0 <= j < k ↔ is_Some (dict !! j))
    ∧ ∃ lvl c, dict !! (k - 1) = Some lvl
               ∧ lvl !! c = Some true
               ∧ (2 <= k →
                  minvertices < count_cell vs minvertex maxvertex (k - 1) c).
Proof.
  intros Hmin Hmax Hminv Hk Hstop Hbefore Hfuel.
  unfold generate_mesh_dataframe.
  assert ((Z.of_nat (length vs) <? minvertices) = false) as ->
    by (apply Z.ltb_ge; lia).
  rewrite Hmax, Hminv.
  destruct (level_loop_halts vs minvertices minvertex maxvertex
              (Z.to_nat (k - 1)) fuel 1 {[ 0 := {[ (0, 0, 0) := true ]} ]})
    as (dict & Hloop & Hlookup).
  - lia.
  - intros j Hj. apply Hbefore. lia.
  - by replace (1 + Z.of_nat (Z.to_nat (k - 1))) with k by lia.
  - replace (1 + Z.of_nat (Z.to_nat (k - 1))) with k in * by lia.
    exists dict. rewrite Hloop. split; [done|]. split; [|split].
    + rewrite Hlookup. rewrite decide_False by lia. by rewrite decide_True.
    + intros j. rewrite Hlookup. split.
      * intros Hj. case_decide; [by eexists|].
        rewrite decide_False by lia.
        replace j with 0 by lia. rewrite lookup_singleton_eq. by eexists.
      * intros [lvl Hl]. repeat case_decide; try lia; try done.
        destruct (decide (j = 0)) as [->|Hj0]; [lia|].
        by rewrite lookup_singleton_ne in Hl.
    + destruct (decide (k = 1)) as [->|Hk1].
      * exists {[ (0, 0, 0) := true ]}, (0, 0, 0). split; [|split].
        -- rewrite Hlookup. rewrite decide_False by lia.
           rewrite decide_False by lia. done.
        -- apply lookup_singleton_eq.
        -- lia.
      * destruct (not_all_below_cell vs minvertices minvertex maxvertex (k - 1))
          as (c & Hin & Hc); [apply Hbefore; lia|].
        eexists _, c. split; [|split].
        -- rewrite Hlookup. by rewrite decide_True by lia.
        -- rewrite level_dict_lookup. rewrite decide_True by done.
           f_equal. apply Z.ltb_lt. lia.
        -- done.
Qed.

Lemma generate_mesh_dataframe_drops_halting_level_witness :
  ∃ dict,
    generate_mesh_dataframe 2 StandIn.diagonal 1 = Some (Ok (2, dict))
    ∧ dict !! 2 = None
    ∧ (∀ j, 0 <= j < 2 ↔ is_Some (dict !! j))
    ∧ ∃ lvl c, dict !! (2 - 1) = Some lvl
               ∧ lvl !! c = Some true
               ∧ (2 <= 2 →
                  1 < count_cell StandIn.diagonal (finite3 (0, 0, 0)%Q)
                        (finite3 (1, 1, 1)%Q) (2 - 1) c).
Proof.
  apply (generate_mesh_dataframe_drops_halting_level 2 StandIn.diagonal 1
           (finite3 (0, 0, 0)%Q) (finite3 (1, 1, 1)%Q) 2).
  - simpl. lia.
  - reflexivity.
  - reflexivity.
  - lia.
  - vm_compute. reflexivity.
  - intros j Hj. assert (j = 1) as -> by lia. vm_compute. reflexivity.
  - simpl. lia.
Defined.

(** C3, at a failing input. Three points on the unit cube's diagonal
    and threshold 1: level 1 has the cell (0,0,0) with 2 vertices,
    level 2 is the first with every cell at or below 1.  The function
    returns 2 levels, level 2 is not among them, and the last level
    returned (level 1) has a cell with count 2 > 1, flagged True. *)
Lemma last_level_below_threshold_counterexample :
  ∃ dict lvl,
    generate_mesh_dataframe 5 StandIn.diagonal 1 = Some (Ok (2, dict))
    ∧ all_below 1 (level_counts StandIn.diagonal (finite3 (0, 0, 0)%Q)
                                (finite3 (1, 1, 1)%Q) 2) = true
    ∧ dict !! 2 = None
    ∧ dict !! 1 = Some lvl
    ∧ lvl !! (0, 0, 0) = Some true
    ∧ count_cell StandIn.diagonal (finite3 (0, 0, 0)%Q)
                 (finite3 (1, 1, 1)%Q) 1 (0, 0, 0) = 2.
Proof.
  eexists _, _. split; [vm_compute; reflexivity|].
  split; [vm_compute; reflexivity|].
  split; [vm_compute; reflexivity|].
  split; [vm_compute; reflexivity|].
  split; vm_compute; reflexivity.
Qed.

(** float64 rounding decides where a vertex falls.  For the x
    coordinates 0.1, 0.25 and 0.4 (the float64 values) the middle split
    of level 1 is exactly 0.25, where the exact mean of the two outer
    values lies above 0.25: the vertex at 0.25 is counted in the cell
    (1,0,0), every cell of level 1 holds at most one vertex, and with
    threshold 1 the function returns one level. *)
Lemma np_linspace_float64_example :
  let a := (3602879701896397 # 36028797018963968)%Q in
  let b := (3602879701896397 # 9007199254740992)%Q in
  let vs := [(Fin a, Fin 0, Fin 0); (Fin (1 # 4), Fin 0, Fin 0);
             (Fin b, Fin 1, Fin 1)] in
  np_linspace (Fin a) (Fin b) 3 = [Fin a; Fin (1 # 4); Fin b]
  ∧ ((1 # 4) < a + (b - a) / 2)%Q
  ∧ count_cell vs (Fin a, Fin 0, Fin 0) (Fin b, Fin 1, Fin 1) 1 (0, 0, 0) = 1
  ∧ count_cell vs (Fin a, Fin 0, Fin 0) (Fin b, Fin 1, Fin 1) 1 (1, 0, 0) = 1
  ∧ generate_mesh_dataframe 5 vs 1
    = Some (Ok (1, {[ 0 := {[ (0, 0, 0) := true ]} ]})).
Proof.
  split; [vm_compute; reflexivity|]. split; [vm_compute; reflexivity|].
  split; [vm_compute; reflexivity|]. split; [vm_compute; reflexivity|].
  vm_compute. reflexivity.
Qed.

(** ** The IO monad *)

Lemma bind_ret_l {A B} (a : A) (f : A → IO B) : bind (ret a) f = f a.
Proof. unfold bind, ret. by destruct (f a). Qed.

Lemma bind_ret_r {A} (m : IO A) : bind m ret = m.
Proof.
  destruct m as [evs [a|e]]; unfold bind, ret; [by rewrite app_nil_r | done].
Qed.

Lemma bind_assoc {A B C} (m : IO A) (f : A → IO B) (g : B → IO C) :
  bind (bind m f) g = bind m (fun a => bind (f a) g).
Proof.
  destruct m as [evs [a|e]]; unfold bind; [|done].
  destruct (f a) as [evs' [b|e]]; [|done].
  destruct (g b) as [evs'' r]. by rewrite app_assoc.
Qed.

Lemma bind_ext {A B} (m : IO A) (f g : A → IO B) :
  (∀ a, f a = g a) → bind m f = bind m g.
Proof.
  intros Hfg. destruct m as [evs [a|e]]; unfold bind; [by rewrite Hfg | done].
Qed.

Lemma bind_lift_ok {A B} (a : A) (f : A → IO B) : bind (lift (Ok a)) f = f a.
Proof. apply bind_ret_l. Qed.

Lemma lift_rbind {A B} (r : result A) (f : A → result B) :
  lift (rbind r f) = bind (lift r) (fun a => lift (f a)).
Proof. by destruct r. Qed.

Lemma bind_ok {A B} (m : IO A) (f : A → IO B) (evs : list event) (b : B) :
  bind m f = (evs, Ok b) →
  ∃ evs1 a evs2, m = (evs1, Ok a) ∧ f a = (evs2, Ok b) ∧ evs = evs1 ++ evs2.
Proof.
  destruct m as [evs1 [a|e]]; unfold bind; [|done].
  destruct (f a) as [evs2 r] eqn:Hf. intros [= <- ->].
  by exists evs1, a, evs2.
Qed.

Lemma lift_ok {A} (r : result A) (evs : list event) (a : A) :
  lift r = (evs, Ok a) → r = Ok a ∧ evs = [].
Proof. unfold lift. by intros [= -> <-]. Qed.

Lemma emit_ok (e : event) (evs : list event) (u : unit) :
  emit e = (evs, Ok u) → evs = [e].
Proof. unfold emit. by intros [= <-]. Qed.

Lemma ret_ok {A} (a b : A) (evs : list event) :
  ret a = (evs, Ok b) → a = b ∧ evs = [].
Proof. unfold ret. by intros [= <- ->]. Qed.

Ltac io_inv :=
  repeat match goal with
  | H : bind _ _ = (_, Ok _) |- _ =>
      apply bind_ok in H; destruct H as (? & ? & ? & ? & H & ?)
  | H : lift _ = (_, Ok _) |- _ => apply lift_ok in H; destruct H
  | H : emit _ = (_, Ok _) |- _ => apply emit_ok in H
  | H : ret _ = (_, Ok _) |- _ => apply ret_ok in H; destruct H
  | H : raise _ = (_, Ok _) |- _ => discriminate H
  end; subst.

(** Normalise both sides with the monad laws and peel off equal heads. *)
Ltac io_norm :=
  repeat (rewrite ?bind_assoc, ?bind_ret_l;
          try (apply bind_ext; intros ?)).

(** *** Loops *)

Lemma forM_ext {A B} (l : list A) (f g : A → IO B) :
  (∀ a, f a = g a) → forM l f = forM l g.
Proof.
  intros Hfg. induction l as [|a l IH]; simpl; [done|].
  by rewrite Hfg, IH.
Qed.

Lemma forM_map {A A' B} (h : A → A') (l : list A) (f : A' → IO B) :
  forM (map h l) f = forM l (fun a => f (h a)).
Proof. induction l as [|a l IH]; simpl; [done | by rewrite IH]. Qed.

Lemma forM_app {A B} (l1 l2 : list A) (f : A → IO B) :
  forM (l1 ++ l2) f
  = bind (forM l1 f) (fun bs1 => bind (forM l2 f) (fun bs2 => ret (bs1 ++ bs2))).
Proof.
  induction l1 as [|a l1 IH]; simpl.
  - rewrite bind_ret_l. symmetry. apply bind_ret_r.
  - rewrite IH. by io_norm.
Qed.

Lemma forM_flat_map {A A' B} (g : A → list A') (l : list A) (f : A' → IO B) :
  forM (flat_map g l) f
  = bind (forM l (fun a => forM (g a) f)) (fun rows => ret (concat rows)).
Proof.
  induction l as [|a l IH]; simpl.
  - by rewrite bind_ret_l.
  - rewrite forM_app, IH. by io_norm.
Qed.

(** A computation without events that does not depend on the loop
    variable can be moved out of a loop that runs at least once. *)
Lemma forM_hoist {A B C} (r : result C) (l : list A) (g : C → A → IO B) :
  l ≠ [] →
  forM l (fun a => bind (lift r) (fun c => g c a))
  = bind (lift r) (fun c => forM l (g c)).
Proof.
  intros Hl. destruct r as [c|e].
  - rewrite bind_lift_ok. apply forM_ext. intros a.
    apply (bind_lift_ok c (fun c => g c a)).
  - destruct l as [|a l]; [done|]. done.
Qed.

(** A loop that completes: the events are those of the iterations, in
    order, and every iteration completed. *)
Lemma forM_ok {A B} (l : list A) (body : A → IO B) (evs : list event)
    (bs : list B) :
  forM l body = (evs, Ok bs) →
  ∃ es, evs = concat es
        ∧ Forall3 (fun a b e => body a = (e, Ok b)) l bs es.
Proof.
  revert evs bs. induction l as [|a l IH]; intros evs bs Hrun; simpl in Hrun.
  - apply ret_ok in Hrun as [<- ->]. exists []. split; [done | constructor].
  - apply bind_ok in Hrun as (e1 & b & e2 & Hb & Hrest & ->).
    apply bind_ok in Hrest as (e3 & bs' & e4 & Hl & Hret & ->).
    apply ret_ok in Hret as [<- ->].
    destruct (IH _ _ Hl) as (es & -> & Hall).
    exists (e1 :: es). split.
    + simpl. by rewrite app_nil_r.
    + by constructor.
Qed.

(** ** The grid pass *)

Section GridPass.
Context `{Collaborators}.

Lemma visit_cell_unfold (body : Mesh → cell → IO Z) (scaled : Mesh)
    (x y z : Z) :
  visit_cell body scaled (x, y, z)
  = bind (lift (slab scaled nyz x)) (fun mesh_x =>
    bind (lift (slab mesh_x nxz y)) (fun mesh_y =>
    bind (lift (slab mesh_y nxy z)) (fun mesh_z =>
    bind (body mesh_z (x, y, z)) (fun dracolen =>
    ret ((x, y, z), dracolen))))).
Proof.
  unfold visit_cell, clip. rewrite lift_rbind, bind_assoc.
  apply bind_ext. intros mesh_x. rewrite lift_rbind, bind_assoc.
  done.
Qed.

Lemma grid_row_flat (body : Mesh → cell → IO Z) (scaled : Mesh)
    (l : list Z) (x y : Z) :
  l ≠ [] →
  forM (map (fun z => (x, y, z)) l) (visit_cell body scaled)
  = bind (lift (slab scaled nyz x)) (fun mesh_x =>
    bind (lift (slab mesh_x nxz y)) (fun mesh_y =>
    forM l (fun z =>
      bind (lift (slab mesh_y nxy z)) (fun mesh_z =>
      bind (body mesh_z (x, y, z)) (fun dracolen =>
      ret ((x, y, z), dracolen)))))).
Proof.
  intros Hl. rewrite forM_map.
  rewrite (forM_ext _ _ _ (visit_cell_unfold body scaled x y)).
  rewrite (forM_hoist (slab scaled nyz x) l
             (fun mesh_x z =>
                bind (lift (slab mesh_x nxz y)) (fun mesh_y =>
                bind (lift (slab mesh_y nxy z)) (fun mesh_z =>
                bind (body mesh_z (x, y, z)) (fun dracolen =>
                ret ((x, y, z), dracolen)))))) by done.
  apply bind_ext. intros mesh_x.
  by rewrite (forM_hoist (slab mesh_x nxz y) l
                (fun mesh_y z =>
                   bind (lift (slab mesh_y nxy z)) (fun mesh_z =>
                   bind (body mesh_z (x, y, z)) (fun dracolen =>
                   ret ((x, y, z), dracolen))))).
Qed.

(** The three nested loops are one loop over the cells of the grid in
    loop order, clipping each cell out of the scaled mesh. *)
Lemma slice_cells_flat (body : Mesh → cell → IO Z) (scaled : Mesh) (n : Z) :
  slice_cells body scaled n = forM (grid_cells n) (visit_cell body scaled).
Proof.
  unfold slice_cells, grid_cells.
  destruct (decide (range n = [])) as [Hnil | Hne].
  - rewrite Hnil. simpl. by rewrite bind_ret_l.
  - rewrite forM_flat_map. f_equal. apply forM_ext. intros x.
    rewrite forM_flat_map.
    rewrite (forM_ext _ _ _ (fun y => grid_row_flat body scaled _ x y Hne)).
    rewrite (forM_hoist (slab scaled nyz x) (range n)
               (fun mesh_x y =>
                  bind (lift (slab mesh_x nxz y)) (fun mesh_y =>
                  forM (range n) (fun z =>
                    bind (lift (slab mesh_y nxy z)) (fun mesh_z =>
                    bind (body mesh_z (x, y, z)) (fun dracolen =>
                    ret ((x, y, z), dracolen))))))) by done.
    by rewrite bind_assoc.
Qed.

End GridPass.

(** ** Paths and the chunks written to a file *)

Lemma string_length_append (s1 s2 : string) :
  String.length (s1 +:+ s2) = (String.length s1 + String.length s2)%nat.
Proof. induction s1 as [|c s1 IH]; simpl; [done | by rewrite IH]. Qed.

Lemma length_os_path_join (a b : string) :
  String.length (os_path_join a b)
  = if starts_with_slash b then String.length b
    else if (String.length a =? 0)%nat || ends_with_slash a
         then (String.length a + String.length b)%nat
         else (String.length a + 1 + String.length b)%nat.
Proof.
  unfold os_path_join. repeat case_match; try done.
  - apply string_length_append.
  - rewrite !string_length_append. simpl. lia.
Qed.

Lemma starts_with_slash_index (s : string) :
  starts_with_slash (s +:+ ".index") = starts_with_slash s.
Proof. by destruct s. Qed.

(** The manifest and the fragment file are different files. *)
Lemma manifest_fragment_distinct (mesh_dir segment_id : string) :
  manifest_filename_of mesh_dir segment_id
  ≠ fragment_filename_of mesh_dir segment_id.
Proof.
  unfold manifest_filename_of, fragment_filename_of. intros Heq.
  apply (f_equal String.length) in Heq.
  rewrite !length_os_path_join, starts_with_slash_index in Heq.
  rewrite string_length_append in Heq. simpl in Heq.
  repeat case_match; lia.
Qed.

Lemma writes_to_app (p : string) (evs1 evs2 : list event) :
  writes_to p (evs1 ++ evs2) = writes_to p evs1 ++ writes_to p evs2.
Proof. unfold writes_to. apply flat_map_app. Qed.

Lemma writes_to_write_eq (p : string) (data : list byte) :
  writes_to p [EWrite p data] = [data].
Proof. unfold writes_to. simpl. by rewrite String.eqb_refl. Qed.

Lemma writes_to_write_ne (p p' : string) (data : list byte) :
  p ≠ p' → writes_to p [EWrite p' data] = [].
Proof.
  intros Hne. unfold writes_to. simpl.
  destruct (String.eqb p p') eqn:E; [|done].
  by apply String.eqb_eq in E.
Qed.

(** ** One level of the grid, cell by cell *)

Section GridReports.
Context `{Collaborators}.

Lemma visit_cell_ok (body : Mesh → cell → IO Z) (scaled : Mesh) (c : cell)
    (evs : list event) (cd : cell * Z) :
  visit_cell body scaled c = (evs, Ok cd) →
  ∃ mesh_z, clip scaled c = Ok mesh_z
            ∧ body mesh_z c = (evs, Ok cd.2)
            ∧ cd.1 = c.
Proof.
  unfold visit_cell. intros Hrun.
  apply bind_ok in Hrun as (e1 & mesh_z & e2 & Hclip & Hrest & ->).
  apply lift_ok in Hclip as [Hclip ->].
  apply bind_ok in Hrest as (e3 & d & e4 & Hbody & Hret & ->).
  apply ret_ok in Hret as [<- ->].
  exists mesh_z. simpl. by rewrite app_nil_r.
Qed.

(** A grid pass that completes visited every cell of the grid once, in
    loop order; it wrote nothing but the visited cells' buffers, in
    that order, to the fragment file. *)
Lemma slice_cells_reports (fragment_path : string)
    (body : Mesh → cell → IO Z) (scaled : Mesh) (n : Z)
    (evs : list event) (cells : list (cell * Z)) :
  appends_fragment fragment_path body →
  slice_cells body scaled n = (evs, Ok cells) →
  ∃ level : list cell_report,
    map cr_cell level = grid_cells n
    ∧ map fst cells = map cr_cell level
    ∧ map snd cells = map cr_len level
    ∧ concat (writes_to fragment_path evs) = level_bytes level
    ∧ (∀ p, p ≠ fragment_path → writes_to p evs = [])
    ∧ Forall (cell_visited fragment_path body scaled) level.
Proof.
  intros Hbody. rewrite slice_cells_flat. intros Hrun.
  apply forM_ok in Hrun as (es & -> & Hall).
  induction Hall as [|c cd e cs cds es Hvisit Hall IH].
  - exists []. by repeat split.
  - destruct IH as (level & Hcells & Hfst & Hsnd & Hbytes & Hother & Hlevel).
    apply visit_cell_ok in Hvisit as (mesh_z & Hclip & Hrun & Hc).
    destruct cd as [c' d]. simpl in Hc, Hrun. subst c'.
    destruct (Hbody _ _ _ _ Hrun) as [[-> ->] | (draco & -> & ->)].
    + exists ({| cr_cell := c; cr_len := 0; cr_bytes := [] |} :: level).
      simpl. rewrite Hfst, Hsnd, Hcells.
      repeat split; try done.
      constructor; [|done]. split; [done|].
      exists mesh_z, []. simpl. by auto.
    + exists ({| cr_cell := c; cr_len := Z.of_nat (length draco);
                 cr_bytes := draco |} :: level).
      simpl. rewrite Hfst, Hsnd, Hcells.
      rewrite String.eqb_refl. simpl. rewrite Hbytes.
      repeat split; try done.
      * intros p Hp.
        destruct (String.eqb p fragment_path) eqn:E;
          [by apply String.eqb_eq in E|].
        simpl. by apply Hother.
      * constructor; [|done]. split; [done|].
        exists mesh_z, [EWrite fragment_path draco]. simpl. by auto.
Qed.

End GridReports.

(** ** A run that completes, level by level *)

Section RunReports.
Context `{Collaborators}.

Lemma lod_pass_reports (manifest_path fragment_path : string)
    (cell_body_at : Z → result (Mesh → cell → IO Z)) (mesh : Mesh)
    (num_lods i : Z) (evs : list event) (u : unit) :
  manifest_path ≠ fragment_path →
  (∀ body, cell_body_at i = Ok body → appends_fragment fragment_path body) →
  lod_pass manifest_path cell_body_at mesh
    (num_faces_left_of (Z.of_nat (length (faces mesh)))
       (decimate_by_of num_lods (scales_of (lods_of num_lods))))
    (scales_of (lods_of num_lods)) i = (evs, Ok u) →
  ∃ level,
    level_visited mesh num_lods fragment_path cell_body_at i level
    ∧ writes_to manifest_path evs = manifest_block level
    ∧ concat (writes_to fragment_path evs) = level_bytes level.
Proof.
  intros Hne Hbody. unfold lod_pass. intros Hrun.
  apply bind_ok in Hrun as (e1 & target & e1' & Htarget & Hrun & ->).
  apply lift_ok in Htarget as [Htarget ->].
  apply bind_ok in Hrun as (e2 & decimated & e2' & Hsimp & Hrun & ->).
  apply lift_ok in Hsimp as [Hsimp ->].
  apply bind_ok in Hrun as (e3 & n & e3' & Hn & Hrun & ->).
  apply lift_ok in Hn as [Hn ->].
  apply bind_ok in Hrun as (e4 & scaled & e4' & Hscaled & Hrun & ->).
  apply lift_ok in Hscaled as [Hscaled ->].
  apply bind_ok in Hrun as (e5 & body & e5' & Hcb & Hrun & ->).
  apply lift_ok in Hcb as [Hcb ->].
  apply bind_ok in Hrun as (e6 & cells & e6' & Hcells & Hrun & ->).
  apply bind_ok in Hrun as (e7 & ? & e7' & Hw1 & Hw2 & ->).
  apply emit_ok in Hw1 as ->. apply emit_ok in Hw2 as ->.
  destruct (slice_cells_reports fragment_path body scaled n e6 cells
              (Hbody body Hcb) Hcells)
    as (level & Hgrid & Hfst & Hsnd & Hbytes & Hother & Hlevel).
  exists level. split; [|split].
  - exists n, scaled, body. repeat split; try done.
    unfold scaled_mesh_at. rewrite Htarget. simpl. rewrite Hsimp. simpl.
    rewrite Hn. simpl. exact Hscaled.
  - simpl. rewrite writes_to_app, (Hother manifest_path Hne). simpl.
    rewrite !String.eqb_refl. rewrite Hfst, Hsnd. done.
  - simpl. rewrite writes_to_app, !concat_app, Hbytes.
    change [EWrite manifest_path (positions_bytes (map fst cells));
            EWrite manifest_path (le_u32s (map snd cells))]
      with ([EWrite manifest_path (positions_bytes (map fst cells))]
            ++ [EWrite manifest_path (le_u32s (map snd cells))]).
    rewrite writes_to_app.
    rewrite !writes_to_write_ne by (by apply not_eq_sym).
    simpl. by rewrite app_nil_r.
Qed.

(** The statement of [lod_pass_reports] for the levels of a loop. *)
Lemma lod_loop_reports (manifest_path fragment_path : string)
    (cell_body_at : Z → result (Mesh → cell → IO Z)) (mesh : Mesh)
    (num_lods : Z) (levels_in : list Z) (evs : list event)
    (us : list unit) :
  manifest_path ≠ fragment_path →
  (∀ i body, cell_body_at i = Ok body → appends_fragment fragment_path body) →
  forM levels_in
    (lod_pass manifest_path cell_body_at mesh
       (num_faces_left_of (Z.of_nat (length (faces mesh)))
          (decimate_by_of num_lods (scales_of (lods_of num_lods))))
       (scales_of (lods_of num_lods))) = (evs, Ok us) →
  ∃ levels,
    Forall2 (level_visited mesh num_lods fragment_path cell_body_at)
            levels_in levels
    ∧ writes_to manifest_path evs = flat_map manifest_block levels
    ∧ concat (writes_to fragment_path evs) = flat_map level_bytes levels.
Proof.
  intros Hne Hbody Hrun. apply forM_ok in Hrun as (es & -> & Hall).
  induction Hall as [|i u e rest us es Hpass Hall IH].
  - by exists [].
  - destruct IH as (levels & Hlevels & Hm & Hf).
    destruct (lod_pass_reports _ _ _ _ _ _ _ _ Hne (Hbody i) Hpass)
      as (level & Hlevel & Hm1 & Hf1).
    exists (level :: levels). split; [by constructor|].
    cbn [concat flat_map]. rewrite !writes_to_app, concat_app.
    by rewrite Hm, Hm1, Hf, Hf1.
Qed.

(** A run of [write_files] that completes: the manifest received the
    six header chunks and then, for the levels from the last to the
    first, each level's positions and lengths; the fragment file
    received the levels' buffers in the same order. *)
Lemma write_files_reports (mesh : Mesh) (num_lods : Z)
    (segment_id directory mesh_subdirectory : string)
    (chunk_shape grid_origin : vec3)
    (cell_body_at : string → Z → result (Mesh → cell → IO Z))
    (evs : list event) (u : unit) :
  let mesh_dir := os_path_join directory mesh_subdirectory in
  let manifest_path := manifest_filename_of mesh_dir segment_id in
  let fragment_path := fragment_filename_of mesh_dir segment_id in
  (∀ i body, cell_body_at fragment_path i = Ok body →
             appends_fragment fragment_path body) →
  write_files mesh num_lods segment_id directory mesh_subdirectory
    chunk_shape grid_origin cell_body_at = (evs, Ok u) →
  ∃ levels,
    0 <= num_lods < 2 ^ 32
    ∧ Forall2 (level_visited mesh num_lods fragment_path
                 (cell_body_at fragment_path))
              (rev (lods_of num_lods)) levels
    ∧ writes_to manifest_path evs
      = header_chunks chunk_shape grid_origin num_lods
        ++ flat_map manifest_block levels
    ∧ concat (writes_to fragment_path evs) = flat_map level_bytes levels.
Proof.
  intros mesh_dir manifest_path fragment_path Hbody. unfold write_files.
  fold mesh_dir. fold manifest_path. fold fragment_path. intros Hrun.
  pose proof (manifest_fragment_distinct mesh_dir segment_id) as Hne.
  fold manifest_path fragment_path in Hne.
  apply bind_ok in Hrun as (e1 & ? & e1' & Hmk & Hrun & ->).
  apply emit_ok in Hmk as ->.
  apply bind_ok in Hrun as (e2 & ? & e2' & Hopen & Hrun & ->).
  apply emit_ok in Hopen as ->.
  apply bind_ok in Hrun as (e3 & ? & e3' & Hheader & Hrun & ->).
  apply bind_ok in Hrun as (e4 & ? & e4' & Hopenf & Hrun & ->).
  apply emit_ok in Hopenf as ->.
  apply bind_ok in Hrun as (e5 & us & e5' & Hloop & Hret & ->).
  apply ret_ok in Hret as [_ ->].
  unfold write_header in Hheader.
  apply bind_ok in Hheader as (h1 & ? & h1' & Hh1 & Hheader & ->).
  apply emit_ok in Hh1 as ->.
  apply bind_ok in Hheader as (h2 & ? & h2' & Hh2 & Hheader & ->).
  apply emit_ok in Hh2 as ->.
  apply bind_ok in Hheader as (h3 & packed & h3' & Hpack & Hheader & ->).
  apply lift_ok in Hpack as [Hpack ->].
  apply bind_ok in Hheader as (h4 & ? & h4' & Hh4 & Hheader & ->).
  apply emit_ok in Hh4 as ->.
  apply bind_ok in Hheader as (h5 & ? & h5' & Hh5 & Hheader & ->).
  apply emit_ok in Hh5 as ->.
  apply bind_ok in Hheader as (h6 & ? & h6' & Hh6 & Hh7 & ->).
  apply emit_ok in Hh6 as ->. apply emit_ok in Hh7 as ->.
  unfold struct_pack_I in Hpack.
  destruct ((0 <=? num_lods) && (num_lods <? 2 ^ 32)) eqn:Hrange;
    [|discriminate Hpack].
  injection Hpack as <-.
  destruct (lod_loop_reports manifest_path fragment_path
              (cell_body_at fragment_path) mesh num_lods
              (rev (lods_of num_lods)) e5 us Hne Hbody Hloop)
    as (levels & Hlevels & Hm & Hf).
  exists levels. split; [lia|]. split; [done|]. split.
  - rewrite app_nil_r. simpl. rewrite !String.eqb_refl.
    destruct (String.eqb manifest_path fragment_path) eqn:E;
      [by apply String.eqb_eq in E|].
    simpl. by rewrite Hm.
  - rewrite app_nil_r. simpl.
    destruct (String.eqb fragment_path manifest_path) eqn:E;
      [by apply String.eqb_eq in E|].
    simpl. by rewrite Hf.
Qed.

End RunReports.

(** ** Levels, scales and grids *)

Lemma range_lookup (n : Z) (k : nat) (i : Z) :
  range n !! k = Some i ↔ i = Z.of_nat k ∧ (k < Z.to_nat n)%nat.
Proof.
  unfold range. change (map Z.of_nat ?l) with (Z.of_nat <$> l).
  rewrite list_lookup_fmap. split.
  - intros Hk. destruct (seq 0 (Z.to_nat n) !! k) as [j|] eqn:E; [|done].
    apply lookup_seq in E as [-> ?]. simpl in Hk. injection Hk as <-. done.
  - intros [-> Hk]. by rewrite lookup_seq_lt.
Qed.


Lemma length_range (n : Z) : length (range n) = Z.to_nat n.
Proof. unfold range. by rewrite length_map, length_seq. Qed.

(** [scales[i]] exists exactly for the levels, and is 2^i in int64. *)
Lemma py_index_scales (num_lods i n : Z) :
  py_index (scales_of (lods_of num_lods)) i = Ok n →
  0 <= i < num_lods ∧ n = int64 (2 ^ i).
Proof.
  unfold py_index, scales_of, lods_of.
  destruct (i <? 0) eqn:Hi; [done|]. apply Z.ltb_ge in Hi.
  change (map ?f ?l) with (f <$> l). rewrite list_lookup_fmap.
  destruct (range num_lods !! Z.to_nat i) as [j|] eqn:E; [|done].
  apply range_lookup in E as [-> Hlt]. simpl. intros [= <-].
  split; [lia|]. by rewrite Z2Nat.id.
Qed.

Lemma int64_small (z : Z) : - 2 ^ 63 <= z < 2 ^ 63 → int64 z = z.
Proof. intros Hz. unfold int64. rewrite Z.mod_small; lia. Qed.

Lemma int64_pow2 (i : Z) : 0 <= i < 63 → int64 (2 ^ i) = 2 ^ i.
Proof.
  intros Hi. apply int64_small.
  assert (0 < 2 ^ i) by (apply Z.pow_pos_nonneg; lia).
  assert (2 ^ i < 2 ^ 63) by (apply Z.pow_lt_mono_r; lia).
  lia.
Qed.

(** The grid of a level has [n^3] cells. *)
Lemma length_grid_cells (n : Z) :
  length (grid_cells n) = (Z.to_nat n * (Z.to_nat n * Z.to_nat n))%nat.
Proof.
  unfold grid_cells.
  rewrite (flat_map_constant_length (c := (Z.to_nat n * Z.to_nat n)%nat)).
  - by rewrite length_range.
  - intros x _.
    rewrite (flat_map_constant_length (c := Z.to_nat n)).
    + by rewrite length_range.
    + intros y _. by rewrite length_map, length_range.
Qed.

Lemma length_grid_cells_pow2 (i : Z) :
  0 <= i → length (grid_cells (2 ^ i)) = Z.to_nat (8 ^ i).
Proof.
  intros Hi. rewrite length_grid_cells.
  assert (0 < 2 ^ i) by (apply Z.pow_pos_nonneg; lia).
  replace (8 ^ i) with (2 ^ i * (2 ^ i * 2 ^ i)).
  - rewrite !Z2Nat.inj_mul by lia. done.
  - change 8 with (2 * (2 * 2)). by rewrite !Z.pow_mul_l.
Qed.

(** ** The cell bodies *)

Section CellBodies.
Context `{Collaborators}.

Lemma write_fragment_ok (fragment_path : string) (mesh_z : Mesh)
    (quantizer : Quantize) (compression_level : Z) (evs : list event) (d : Z) :
  write_fragment fragment_path mesh_z quantizer compression_level
  = (evs, Ok d) →
  ∃ draco, evs = [EWrite fragment_path draco] ∧ d = Z.of_nat (length draco).
Proof.
  unfold write_fragment. intros Hrun.
  apply bind_ok in Hrun as (e1 & draco & e1' & Henc & Hrun & ->).
  apply lift_ok in Henc as [Henc ->].
  apply bind_ok in Hrun as (e2 & ? & e2' & Hw & Hret & ->).
  apply emit_ok in Hw as ->. apply ret_ok in Hret as [<- ->].
  by exists draco.
Qed.

(** The full-octree cell body: nothing and length 0 for an empty
    clipped mesh, one buffer and its length otherwise. *)
Lemma fulloctree_cell_ok (fragment_path : string) (bits compression_level : Z)
    (mesh_z : Mesh) (c : cell) (evs : list event) (d : Z) :
  fulloctree_cell fragment_path bits compression_level mesh_z c = (evs, Ok d) →
  (vertices mesh_z = [] ∧ evs = [] ∧ d = 0)
  ∨ (vertices mesh_z ≠ []
     ∧ ∃ draco, evs = [EWrite fragment_path draco]
                ∧ d = Z.of_nat (length draco)).
Proof.
  unfold fulloctree_cell. intros Hrun.
  apply bind_ok in Hrun as (e1 & q & e1' & Hq & Hrun & ->).
  apply lift_ok in Hq as [Hq ->].
  destruct (vertices mesh_z) as [|v vs] eqn:Hvs; simpl in Hrun.
  - apply ret_ok in Hrun as [<- ->]. by left.
  - right. split; [done|]. by apply write_fragment_ok in Hrun.
Qed.

Lemma fulloctree_cell_appends (fragment_path : string)
    (bits compression_level : Z) :
  appends_fragment fragment_path
    (fulloctree_cell fragment_path bits compression_level).
Proof.
  intros mesh_z c evs d Hrun.
  apply fulloctree_cell_ok in Hrun as [(_ & -> & ->) | (_ & Hw)]; auto.
Qed.

(** The density cell body: the cell must be in the level's dictionary;
    one buffer and its length when the cell is flagged True and its
    clipped mesh is not empty, nothing and length 0 otherwise. *)
Lemma density_cell_ok (fragment_path : string) (bits compression_level : Z)
    (lod_dictionary : gmap cell bool) (mesh_z : Mesh) (c : cell)
    (evs : list event) (d : Z) :
  density_cell fragment_path bits compression_level lod_dictionary mesh_z c
  = (evs, Ok d) →
  ∃ flag, lod_dictionary !! c = Some flag
          ∧ ((flag = true ∧ vertices mesh_z ≠ []
              ∧ ∃ draco, evs = [EWrite fragment_path draco]
                         ∧ d = Z.of_nat (length draco))
             ∨ ((flag = false ∨ vertices mesh_z = []) ∧ evs = [] ∧ d = 0)).
Proof.
  unfold density_cell, dict_get. intros Hrun.
  apply bind_ok in Hrun as (e1 & flag & e1' & Hflag & Hrun & ->).
  apply lift_ok in Hflag as [Hflag ->].
  destruct (lod_dictionary !! c) as [flag'|]; [|done].
  injection Hflag as ->. exists flag. split; [done|].
  destruct flag.
  - destruct (vertices mesh_z) as [|v vs] eqn:Hvs; simpl in Hrun.
    + apply ret_ok in Hrun as [<- ->]. right. auto.
    + apply bind_ok in Hrun as (e2 & q & e2' & Hq & Hrun & ->).
      apply lift_ok in Hq as [Hq ->].
      apply write_fragment_ok in Hrun. left. auto.
  - apply ret_ok in Hrun as [<- ->]. right. auto.
Qed.

(** The buffer a cell body appends is the encoder's. *)
Lemma write_fragment_encodes (fragment_path : string) (mesh_z : Mesh)
    (quantizer : Quantize) (compression_level : Z) (evs : list event) (d : Z) :
  write_fragment fragment_path mesh_z quantizer compression_level
  = (evs, Ok d) →
  ∃ draco,
    encode_mesh
      (with_vertices mesh_z
         (map (fun q => vec3_of_Z q.1.1 q.1.2 q.2)
              (Quantize_call quantizer (vertices mesh_z))))
      compression_level = Ok draco
    ∧ evs = [EWrite fragment_path draco] ∧ d = Z.of_nat (length draco).
Proof.
  unfold write_fragment. intros Hrun.
  apply bind_ok in Hrun as (e1 & draco & e1' & Henc & Hrun & ->).
  apply lift_ok in Henc as [Henc ->].
  apply bind_ok in Hrun as (e2 & ? & e2' & Hw & Hret & ->).
  apply emit_ok in Hw as ->. apply ret_ok in Hret as [<- ->].
  by exists draco.
Qed.

Lemma density_cell_encodes (fragment_path : string)
    (bits compression_level : Z)
    (lod_dictionary : gmap cell bool) (mesh_z : Mesh) (c : cell)
    (evs : list event) (d : Z) :
  density_cell fragment_path bits compression_level lod_dictionary mesh_z c
  = (evs, Ok d) →
  ∃ flag, lod_dictionary !! c = Some flag
          ∧ ((flag = true ∧ vertices mesh_z ≠ []
              ∧ ∃ draco, encoded_cell mesh_z c bits compression_level = Ok draco
                         ∧ evs = [EWrite fragment_path draco]
                         ∧ d = Z.of_nat (length draco))
             ∨ ((flag = false ∨ vertices mesh_z = []) ∧ evs = [] ∧ d = 0)).
Proof.
  unfold density_cell, dict_get. intros Hrun.
  apply bind_ok in Hrun as (e1 & flag & e1' & Hflag & Hrun & ->).
  apply lift_ok in Hflag as [Hflag ->].
  destruct (lod_dictionary !! c) as [flag'|]; [|done].
  injection Hflag as ->. exists flag. split; [done|].
  destruct flag.
  - destruct (vertices mesh_z) as [|v vs] eqn:Hvs; simpl in Hrun.
    + apply ret_ok in Hrun as [<- ->]. right. auto.
    + apply bind_ok in Hrun as (e2 & q & e2' & Hq & Hrun & ->).
      apply lift_ok in Hq as [Hq ->].
      apply write_fragment_encodes in Hrun as (draco & Henc & -> & ->).
      left. split; [done|]. split; [done|]. exists draco.
      unfold encoded_cell. rewrite Hq. cbn [rbind]. done.
  - apply ret_ok in Hrun as [<- ->]. right. auto.
Qed.

Lemma density_cell_appends (fragment_path : string)
    (bits compression_level : Z) (lod_dictionary : gmap cell bool) :
  appends_fragment fragment_path
    (density_cell fragment_path bits compression_level lod_dictionary).
Proof.
  intros mesh_z c evs d Hrun.
  apply density_cell_ok in Hrun
    as (flag & _ & [(_ & _ & Hw) | (_ & -> & ->)]); auto.
Qed.

End CellBodies.

(** ** The full-octree decomposition of mesh.py *)

Section FullOctree.
Context `{Collaborators}.

(** C5. A run of the full-octree decomposition with at most 63 levels
    that completes wrote to the manifest six header chunks and then one
    block per level, for the levels [num_lods - 1] down to [0]. The
    block of level [i] holds the positions of the [8^i] cells of the
    [2^i x 2^i x 2^i] grid in loop order (x outer, y middle, z inner)
    and as many lengths, one per cell whether or not its clipped mesh
    is empty; the length of a cell whose clipped mesh is empty is 0. *)
Theorem fulloctree_manifest_blocks (mesh : Mesh) (num_lods : Z)
    (segment_id directory : string) (bits compression_level : Z)
    (mesh_subdirectory : string) (evs : list event) :
  num_lods <= 63 →
  fulloctree_decomposition_mesh mesh num_lods segment_id directory bits
    compression_level mesh_subdirectory = (evs, Ok tt) →
  ∃ (header : list (list byte)) (levels : list (list cell_report)),
    length header = 6%nat
    ∧ writes_to
        (manifest_filename_of (os_path_join directory mesh_subdirectory)
                              segment_id) evs
      = header ++ flat_map manifest_block levels
    ∧ Forall2
        (fun i level =>
           map cr_cell level = grid_cells (2 ^ i)
           ∧ length (map cr_cell level) = Z.to_nat (8 ^ i)
           ∧ length (map cr_len level) = Z.to_nat (8 ^ i)
           ∧ ∃ scaled,
               scaled_mesh_at (clean_mesh mesh) num_lods i = Ok scaled
               ∧ Forall (fun r =>
                    ∃ mesh_z, clip scaled (cr_cell r) = Ok mesh_z
                              ∧ (vertices mesh_z = [] → cr_len r = 0))
                  level)
        (rev (range num_lods)) levels.
Proof.
  intros Hlods. unfold fulloctree_decomposition_mesh.
  destruct (negb _); [done|]. intros Hrun.
  apply bind_ok in Hrun as (e1 & maxv & e1' & Hmax & Hrun & ->).
  apply lift_ok in Hmax as [Hmax ->].
  apply bind_ok in Hrun as (e2 & minv & e2' & Hmin & Hrun & ->).
  apply lift_ok in Hmin as [Hmin ->].
  apply write_files_reports in Hrun
    as (levels & Hrange & Hlevels & Hmanifest & _).
  - eexists _, levels. split; [|split]; [|exact Hmanifest|]; [done|].
    eapply Forall2_impl; [exact Hlevels|].
    intros i level (n & scaled & body & Hn & Hscaled & Hbody & Hgrid & Hcells).
    apply py_index_scales in Hn as [Hi ->].
    rewrite int64_pow2 in Hgrid by lia.
    injection Hbody as <-.
    split; [done|]. rewrite !length_map.
    assert (length level = Z.to_nat (8 ^ i)) as Hlen.
    { rewrite <- (length_map cr_cell), Hgrid.
      apply length_grid_cells_pow2; lia. }
    split; [done|]. split; [done|].
    exists scaled. split; [done|].
    eapply Forall_impl; [exact Hcells|].
    intros r (_ & mesh_z & ev & Hclip & Hcell & _).
    exists mesh_z. split; [done|]. intros Hempty.
    apply fulloctree_cell_ok in Hcell as [(_ & _ & ->) | (Hne & _)]; done.
  - intros i body [= <-]. apply fulloctree_cell_appends.
Qed.

End FullOctree.

Lemma fulloctree_manifest_blocks_witness :
  ∃ (header : list (list byte)) (levels : list (list cell_report)),
    length header = 6%nat
    ∧ writes_to
        (manifest_filename_of (os_path_join "out" "meshdir") "7")
        (events (fulloctree_decomposition_mesh (H := StandIn.collaborators)
                   StandIn.diagonal_mesh 2 "7" "out" 10 5 "meshdir"))
      = header ++ flat_map manifest_block levels
    ∧ Forall2
        (fun i level =>
           map cr_cell level = grid_cells (2 ^ i)
           ∧ length (map cr_cell level) = Z.to_nat (8 ^ i)
           ∧ length (map cr_len level) = Z.to_nat (8 ^ i)
           ∧ ∃ scaled,
               scaled_mesh_at (H := StandIn.collaborators)
                 (clean_mesh (H := StandIn.collaborators) StandIn.diagonal_mesh) 2 i = Ok scaled
               ∧ Forall (fun r =>
                    ∃ mesh_z, clip (H := StandIn.collaborators) scaled (cr_cell r)
                              = Ok mesh_z
                              ∧ (vertices mesh_z = [] → cr_len r = 0))
                  level)
        (rev (range 2)) levels.
Proof.
  apply (fulloctree_manifest_blocks (H := StandIn.collaborators)
           StandIn.diagonal_mesh 2 "7" "out" 10 5 "meshdir").
  - lia.
  - vm_compute. reflexivity.
Defined.

(** ** The dictionary that generate_mesh_dataframe returns *)

(** Whenever the loop returns, it returns the first level index at or
    after [lod] that it did not add: the levels from [lod] up to it
    are in the dictionary, it is not. *)
Lemma level_loop_result (vs : list vec3) (minvertices : Z)
    (minvertex maxvertex : vec3) (fuel : nat) :
  ∀ (lod : Z) (dict : gmap Z (gmap cell bool)) (k : Z)
    (dict' : gmap Z (gmap cell bool)),
    level_loop fuel vs minvertices minvertex maxvertex lod dict
    = Some (k, dict') →
    lod <= k
    ∧ ∀ j, dict' !! j =
           if decide (lod <= j < k)
           then Some (level_dict minvertices
                        (level_counts vs minvertex maxvertex j))
           else if decide (j = k) then None else dict !! j.
Proof.
  induction fuel as [|fuel IH]; intros lod dict k dict' Hloop; [done|].
  simpl in Hloop.
  destruct (all_below minvertices (level_counts vs minvertex maxvertex lod)).
  - injection Hloop as <- <-. split; [lia|]. intros j.
    rewrite decide_False by lia. case_decide as Hj.
    + subst. apply lookup_delete_eq.
    + rewrite lookup_delete_ne by done. by rewrite lookup_insert_ne.
  - apply IH in Hloop as [Hk Hlookup]. split; [lia|]. intros j.
    rewrite Hlookup. destruct (decide (j = lod)) as [->|Hne].
    + rewrite decide_False by lia. rewrite decide_False by lia.
      rewrite decide_True by lia. apply lookup_insert_eq.
    + repeat case_decide; try lia; try done.
      by rewrite lookup_insert_ne.
Qed.

(** What a returned dictionary holds: level 0 is the root flagged
    True; a level [i >= 1] is in it exactly when [i < num_lods], and
    flags each cell of its grid with whether the cell's count exceeds
    the threshold. *)
Lemma generate_mesh_dataframe_levels (fuel : nat) (vs : list vec3)
    (minvertices num_lods : Z) (dictionary : gmap Z (gmap cell bool)) :
  generate_mesh_dataframe fuel vs minvertices = Some (Ok (num_lods, dictionary)) →
  1 <= num_lods
  ∧ dictionary !! 0 = Some {[ (0, 0, 0) := true ]}
  ∧ (∀ i, is_Some (dictionary !! i) ↔ 0 <= i < num_lods)
  ∧ ∀ i lod_dictionary maxvertex minvertex,
      1 <= i → dictionary !! i = Some lod_dictionary →
      array_max vs = Ok maxvertex → array_min vs = Ok minvertex →
      lod_dictionary
      = level_dict minvertices (level_counts vs minvertex maxvertex i).
Proof.
  unfold generate_mesh_dataframe.
  destruct (Z.of_nat (length vs) <? minvertices).
  - intros [= <- <-]. split; [lia|]. split; [done|]. split.
    + intros i. destruct (decide (i = 0)) as [->|Hi].
      * rewrite lookup_singleton_eq. split; [lia | by eexists].
      * rewrite lookup_singleton_ne by done. split; [by intros [? ?] | lia].
    + intros i ld mx mn Hi Hld. by rewrite lookup_singleton_ne in Hld by lia.
  - destruct (array_max vs) as [mx|e] eqn:Hmax;
      [|by destruct (array_min vs)].
    destruct (array_min vs) as [mn|e] eqn:Hmin; [|done].
    destruct (level_loop fuel vs minvertices mn mx 1 _) as [[k d]|] eqn:Hloop;
      [|done].
    simpl. intros [= <- <-].
    apply level_loop_result in Hloop as [Hk Hlookup].
    split; [lia|]. split; [|split].
    + rewrite Hlookup. rewrite decide_False by lia. by rewrite decide_False by lia.
    + intros i. rewrite Hlookup. repeat case_decide.
      * split; [lia | by eexists].
      * split; [by intros [? ?] | lia].
      * destruct (decide (i = 0)) as [->|Hi].
        -- rewrite lookup_singleton_eq. split; [lia | by eexists].
        -- rewrite lookup_singleton_ne by done.
           split; [by intros [? ?] | lia].
    + intros i ld mx' mn' Hi Hld [= <-] [= <-]. rewrite Hlookup in Hld.
      case_decide; [by injection Hld as <-|].
      case_decide; [done|]. by rewrite lookup_singleton_ne in Hld by lia.
Qed.

(** ** The density decomposition of mesh.py *)

Section DensityRun.
Context `{Collaborators}.

(** C2. What the code writes.  In a run of the density decomposition that
    completes, the dictionary has the root of level 0 flagged True, and
    every level [num_lods - 1 .. 0] visits every cell of its grid, in
    loop order.  A cell contributes bytes to the fragment file only if
    it is flagged True in the level's dictionary (and its clipped mesh
    has a vertex): then it contributes its encoded buffer; a cell
    flagged False is recorded with length 0 and contributes no bytes.
    For a level [i >= 1] the flag is True exactly when the cell's
    vertex count EXCEEDS minimum_vertices: the cells written are the
    ones that need further subdivision, the leaves get length 0. *)
Theorem density_fragments_follow_flags (fuel : nat) (mesh : Mesh)
    (segment_id directory : string)
    (minimum_vertices bits compression_level : Z)
    (mesh_subdirectory : string) (evs : list event) :
  density_decomposition_mesh fuel mesh segment_id directory minimum_vertices
    bits compression_level mesh_subdirectory = Some (evs, Ok tt) →
  let mesh_dir := os_path_join directory mesh_subdirectory in
  let vs := vertices (clean_mesh mesh) in
  ∃ num_lods dictionary (levels : list (list cell_report)),
    generate_mesh_dataframe fuel vs minimum_vertices
    = Some (Ok (num_lods, dictionary))
    ∧ 1 <= num_lods
    ∧ dictionary !! 0 = Some {[ (0, 0, 0) := true ]}
    ∧ concat (writes_to (fragment_filename_of mesh_dir segment_id) evs)
      = flat_map level_bytes levels
    ∧ (∃ header,
         length header = 6%nat
         ∧ writes_to (manifest_filename_of mesh_dir segment_id) evs
           = header ++ flat_map manifest_block levels)
    ∧ Forall2
        (density_level_reported (clean_mesh mesh) num_lods minimum_vertices
           bits compression_level dictionary)
        (rev (range num_lods)) levels.
Proof.
  unfold density_decomposition_mesh. destruct (negb _); [done|].
  destruct (array_max (vertices mesh)) as [maxv|e] eqn:Hmax;
    [|by destruct (array_min (vertices mesh))].
  destruct (array_min (vertices mesh)) as [minv|e] eqn:Hmin; [|done].
  destruct (generate_mesh_dataframe fuel (vertices (clean_mesh mesh))
              minimum_vertices) as [[[num_lods dictionary]|e]|] eqn:Hgen;
    [|done|done].
  intros [= Hrun].
  apply write_files_reports in Hrun
    as (levels & Hrange & Hlevels & Hmanifest & Hfragment).
  - destruct (generate_mesh_dataframe_levels _ _ _ _ _ Hgen)
      as (Hlods & Hroot & _ & Hflags).
    exists num_lods, dictionary, levels.
    split; [done|]. split; [done|]. split; [done|]. split; [done|].
    split; [eexists; split; [|exact Hmanifest]; done|].
    eapply Forall2_impl; [exact Hlevels|].
    intros i level (n & scaled & body & Hn & Hscaled & Hbody & Hgrid & Hcells).
    unfold dict_get in Hbody.
    destruct (dictionary !! i) as [lod_dictionary|] eqn:Hld; [|done].
    simpl in Hbody. injection Hbody as <-.
    apply py_index_scales in Hn as [Hi ->].
    exists lod_dictionary, scaled. split; [done|]. split; [done|].
    split; [done|]. split.
    { intros Hi63. by rewrite <- (int64_pow2 i) by lia. }
    eapply Forall_impl; [exact Hcells|].
    intros r (Hlen & mesh_z & ev & Hclip & Hcell & Hev).
    apply density_cell_encodes in Hcell as (flag & Hflag & Hcases).
    exists flag, mesh_z. split; [done|]. split; [done|]. split; [done|].
    split; [|split; [|split]].
    + intros Hpremise.
      destruct Hcases as [(-> & Hne & _) | (_ & -> & Hzero)].
      * by destruct Hpremise.
      * split; [done|]. by destruct Hev as [[_ ?] | ?].
    + intros -> Hne.
      destruct Hcases as [(_ & _ & draco & Henc & -> & _) | ([? | ?] & _)];
        [|done|done].
      destruct Hev as [[? _] | [= <-]]; done.
    + intros ->. rewrite Hroot in Hld. injection Hld as <-.
      apply lookup_singleton_Some in Hflag as [_ <-]. done.
    + intros Hi1 maxvertex minvertex Hmx Hmn.
      rewrite (Hflags i lod_dictionary maxvertex minvertex Hi1 Hld Hmx Hmn)
        in Hflag.
      rewrite level_dict_lookup in Hflag. case_decide; [|done].
      by injection Hflag as <-.
  - intros i body Hbody. unfold dict_get in Hbody.
    destruct (dictionary !! i); [|done]. simpl in Hbody.
    injection Hbody as <-. apply density_cell_appends.
Qed.

End DensityRun.

Lemma density_fragments_follow_flags_witness :
  let evs :=
    match density_decomposition_mesh (H := StandIn.collaborators) 5
            StandIn.diagonal_mesh "7" "out" 1 10 5 "meshdir" with
    | Some run => events run
    | None => []
    end in
  let mesh_dir := os_path_join "out" "meshdir" in
  let vs := vertices (clean_mesh (H := StandIn.collaborators)
                        StandIn.diagonal_mesh) in
  ∃ num_lods dictionary (levels : list (list cell_report)),
    generate_mesh_dataframe 5 vs 1 = Some (Ok (num_lods, dictionary))
    ∧ 1 <= num_lods
    ∧ dictionary !! 0 = Some {[ (0, 0, 0) := true ]}
    ∧ concat (writes_to (fragment_filename_of mesh_dir "7") evs)
      = flat_map level_bytes levels
    ∧ (∃ header,
         length header = 6%nat
         ∧ writes_to (manifest_filename_of mesh_dir "7") evs
           = header ++ flat_map manifest_block levels)
    ∧ Forall2
        (density_level_reported (H := StandIn.collaborators)
           (clean_mesh (H := StandIn.collaborators) StandIn.diagonal_mesh)
           num_lods 1 10 5 dictionary)
        (rev (range num_lods)) levels.
Proof.
  apply (density_fragments_follow_flags (H := StandIn.collaborators) 5
           StandIn.diagonal_mesh "7" "out" 1 10 5 "meshdir").
  vm_compute. reflexivity.
Defined.

(** C2, at a failing input. Three points on the unit cube's diagonal,
    threshold 1.  At level 1 the cell (0,0,0) holds 2 vertices, more
    than the threshold, so it needs further subdivision; the run
    appends 24 bytes for it to the fragment file (the first write) and
    records length 24 for it in the manifest, while the seven cells at
    or below the threshold get length 0. *)
Lemma density_leaf_only_counterexample :
  ∃ evs draco1 draco0,
    density_decomposition_mesh (H := StandIn.collaborators) 5
      StandIn.diagonal_mesh "7" "out" 1 10 5 "meshdir" = Some (evs, Ok tt)
    ∧ count_cell StandIn.diagonal (finite3 (0, 0, 0)%Q)
                 (finite3 (1, 1, 1)%Q) 1 (0, 0, 0) = 2
    ∧ writes_to "out/meshdir/7" evs = [draco1; draco0]
    ∧ length draco1 = 24%nat
    ∧ nth 6 (writes_to "out/meshdir/7.index" evs) []
      = positions_bytes (grid_cells 2)
    ∧ nth 7 (writes_to "out/meshdir/7.index" evs) []
      = le_u32s [24; 0; 0; 0; 0; 0; 0; 0].
Proof.
  eexists _, _, _. split; [vm_compute; reflexivity|].
  split; [vm_compute; reflexivity|].
  split; [vm_compute; reflexivity|].
  split; [vm_compute; reflexivity|].
  split; vm_compute; reflexivity.
Qed.

(** ** The events of a run, however it ends *)

Lemma events_bind {A B} (m : IO A) (f : A → IO B) :
  events (bind m f)
  = events m ++ match outcome m with
                | Ok a => events (f a)
                | Raise _ => []
                end.
Proof.
  destruct m as [evs [a|e]]; unfold bind, events, outcome; simpl.
  - by destruct (f a).
  - by rewrite app_nil_r.
Qed.

Lemma events_bind_emit {B} (e : event) (f : unit → IO B) :
  events (bind (emit e) f) = e :: events (f tt).
Proof. by rewrite events_bind. Qed.

Lemma Forall_events_bind {A B} (P : event → Prop) (m : IO A) (f : A → IO B) :
  Forall P (events m) → (∀ a, Forall P (events (f a))) →
  Forall P (events (bind m f)).
Proof.
  intros Hm Hf. rewrite events_bind. apply Forall_app. split; [done|].
  destruct (outcome m); [apply Hf | constructor].
Qed.

Lemma Forall_events_lift {A B} (P : event → Prop) (r : result A)
    (f : A → IO B) :
  (∀ a, r = Ok a → Forall P (events (f a))) →
  Forall P (events (bind (lift r) f)).
Proof.
  intros Hf. rewrite events_bind. destruct r as [a|e]; simpl.
  - by apply Hf.
  - constructor.
Qed.

Lemma Forall_events_forM {A B} (P : event → Prop) (l : list A)
    (body : A → IO B) :
  (∀ a, Forall P (events (body a))) → Forall P (events (forM l body)).
Proof.
  intros Hbody. induction l as [|a l IH]; simpl; [constructor|].
  apply Forall_events_bind; [done|]. intros b.
  apply Forall_events_bind; [done|]. intros bs. constructor.
Qed.

Section RunEvents.
Context `{Collaborators}.

Lemma write_fragment_writes (fragment_path : string) (mesh_z : Mesh)
    (q : Quantize) (compression_level : Z) :
  Forall is_write
    (events (write_fragment fragment_path mesh_z q compression_level)).
Proof.
  unfold write_fragment. apply Forall_events_lift. intros draco _.
  rewrite events_bind_emit. by repeat constructor.
Qed.

Lemma fulloctree_cell_writes (fragment_path : string)
    (bits compression_level : Z) (mesh_z : Mesh) (c : cell) :
  Forall is_write
    (events (fulloctree_cell fragment_path bits compression_level mesh_z c)).
Proof.
  unfold fulloctree_cell. apply Forall_events_lift. intros q _.
  destruct (0 <? length (vertices mesh_z))%nat;
    [apply write_fragment_writes | constructor].
Qed.

Lemma density_cell_writes (fragment_path : string)
    (bits compression_level : Z) (ld : gmap cell bool) (mesh_z : Mesh)
    (c : cell) :
  Forall is_write
    (events (density_cell fragment_path bits compression_level ld mesh_z c)).
Proof.
  unfold density_cell. apply Forall_events_lift. intros [|] _; [|constructor].
  destruct (0 <? length (vertices mesh_z))%nat; [|constructor].
  apply Forall_events_lift. intros q _. apply write_fragment_writes.
Qed.

Lemma slice_cells_writes (body : Mesh → cell → IO Z) (scaled : Mesh) (n : Z) :
  (∀ mesh_z c, Forall is_write (events (body mesh_z c))) →
  Forall is_write (events (slice_cells body scaled n)).
Proof.
  intros Hbody. rewrite slice_cells_flat. apply Forall_events_forM.
  intros c. unfold visit_cell. apply Forall_events_lift. intros mesh_z _.
  apply Forall_events_bind; [apply Hbody|]. intros d. constructor.
Qed.

Lemma lod_pass_writes (manifest_path : string)
    (cell_body_at : Z → result (Mesh → cell → IO Z)) (mesh : Mesh)
    (num_faces_left : list npfloat) (scales : list Z) (i : Z) :
  (∀ body mesh_z c, cell_body_at i = Ok body →
                    Forall is_write (events (body mesh_z c))) →
  Forall is_write
    (events (lod_pass manifest_path cell_body_at mesh num_faces_left scales i)).
Proof.
  intros Hbody. unfold lod_pass.
  apply Forall_events_lift. intros target _.
  apply Forall_events_lift. intros decimated _.
  apply Forall_events_lift. intros n _.
  apply Forall_events_lift. intros scaled _.
  apply Forall_events_lift. intros body Hcb.
  apply Forall_events_bind.
  - apply slice_cells_writes. intros mesh_z c. by apply Hbody.
  - intros cells. rewrite events_bind_emit. by repeat constructor.
Qed.

(** Every run of [write_files] begins by creating the directory,
    opening the manifest for appending and writing the chunk shape and
    the grid origin; after that it only writes, and opens the fragment
    file for writing. *)
Lemma write_files_events (mesh : Mesh) (num_lods : Z)
    (segment_id directory mesh_subdirectory : string)
    (chunk_shape grid_origin : vec3)
    (cell_body_at : string → Z → result (Mesh → cell → IO Z)) :
  let mesh_dir := os_path_join directory mesh_subdirectory in
  let manifest_path := manifest_filename_of mesh_dir segment_id in
  let fragment_path := fragment_filename_of mesh_dir segment_id in
  (∀ i body mesh_z c, cell_body_at fragment_path i = Ok body →
                      Forall is_write (events (body mesh_z c))) →
  ∃ rest,
    events (write_files mesh num_lods segment_id directory mesh_subdirectory
              chunk_shape grid_origin cell_body_at)
    = EMakedirs mesh_dir
      :: EOpen manifest_path AppendBinary
      :: EWrite manifest_path (f32s (vlist chunk_shape))
      :: EWrite manifest_path (f32s (vlist grid_origin))
      :: rest
    ∧ Forall (fun e => is_write e ∨ e = EOpen fragment_path WriteBinary) rest.
Proof.
  intros mesh_dir manifest_path fragment_path Hbody. unfold write_files.
  fold mesh_dir. fold manifest_path. fold fragment_path.
  rewrite !events_bind_emit. unfold write_header.
  rewrite events_bind, !events_bind_emit. rewrite <- !app_comm_cons.
  eexists. split; [reflexivity|].
  apply Forall_app. split.
  - eapply Forall_impl; [|intros e He; left; exact He].
    apply Forall_events_lift. intros packed _.
    rewrite !events_bind_emit. by repeat constructor.
  - destruct (outcome _); [|constructor].
    constructor; [by right|].
    eapply Forall_impl; [|intros e He; left; exact He].
    apply Forall_events_bind; [|intros; constructor].
    apply Forall_events_forM. intros i. apply lod_pass_writes.
    intros body mesh_z c. apply Hbody.
Qed.

End RunEvents.

(** ** Replaying events on a file system *)

(** A file that is never opened for writing only grows: its content
    after the events is its content before, then the chunks written to
    it. *)
Lemma exec_events_appends (p : string) (evs : list event) :
  Forall (fun e => e ≠ EOpen p WriteBinary) evs →
  ∀ (fs : FS) (content : list byte),
    files fs !! p = Some content →
    files (exec_events evs fs) !! p
    = Some (content ++ concat (writes_to p evs)).
Proof.
  induction 1 as [|e evs He Hevs IH]; intros fs content Hfs; simpl.
  - by rewrite app_nil_r.
  - destruct e as [d | p' [|] | p' data]; simpl.
    + by apply IH.
    + apply IH. simpl. destruct (decide (p' = p)) as [->|Hne].
      * rewrite lookup_insert_eq, Hfs. done.
      * by rewrite lookup_insert_ne.
    + apply IH. simpl. rewrite lookup_insert_ne; [done|].
      intros ->. by apply He.
    + destruct (String.eqb p p') eqn:E.
      * apply String.eqb_eq in E as <-. simpl. rewrite app_assoc.
        apply IH. simpl. by rewrite lookup_insert_eq, Hfs.
      * simpl. apply IH. simpl. rewrite lookup_insert_ne; [done|].
        intros ->. by rewrite String.eqb_refl in E.
Qed.

(** Opening for appending and then only growing. *)
Lemma exec_events_open_append (p dir : string) (tail : list event) (fs : FS) :
  Forall (fun e => e ≠ EOpen p WriteBinary) tail →
  files (exec_events (EMakedirs dir :: EOpen p AppendBinary :: tail) fs) !! p
  = Some (default [] (files fs !! p) ++ concat (writes_to p tail)).
Proof.
  intros Htail. simpl. apply exec_events_appends; [done|].
  simpl. apply lookup_insert_eq.
Qed.

(** ** Running the full-octree decomposition on a file system *)

Section FullOctreeFiles.
Context `{Collaborators}.

(** With an accepted width and at least one vertex, the function gets
    to [write_files]. *)
Lemma fulloctree_decomposition_mesh_proceeds (mesh : Mesh) (num_lods : Z)
    (segment_id directory : string) (bits compression_level : Z)
    (mesh_subdirectory : string) :
  bits = 10 ∨ bits = 16 → vertices mesh ≠ [] →
  ∃ max_mesh_vertex min_mesh_vertex,
    array_max (vertices mesh) = Ok max_mesh_vertex
    ∧ array_min (vertices mesh) = Ok min_mesh_vertex
    ∧ fulloctree_decomposition_mesh mesh num_lods segment_id directory bits
        compression_level mesh_subdirectory
      = write_files (clean_mesh mesh) num_lods segment_id directory
          mesh_subdirectory
          (vmap (fun c => fdiv c (of_Z num_lods))
                (vzip fsub max_mesh_vertex min_mesh_vertex))
          min_mesh_vertex
          (fun fragment_filename _ =>
             Ok (fulloctree_cell fragment_filename bits compression_level)).
Proof.
  intros Hbits Hvs. unfold fulloctree_decomposition_mesh.
  assert (negb ((bits =? 10) || (bits =? 16)) = false) as ->
    by (destruct Hbits; subst; done).
  destruct (vertices mesh) as [|v vs]; [done|].
  eexists _, _. split; [done|]. split; [done|].
  unfold array_max, array_min. by rewrite !bind_lift_ok.
Qed.

Lemma f32s_vlist_length (v : vec3) : length (f32s (vlist v)) = 12%nat.
Proof.
  destruct v as [[x y] z]. unfold f32s. simpl.
  rewrite !length_app, !f32_bytes_length. done.
Qed.

(** The manifest after a run with an accepted width on a mesh with at
    least one vertex: what it held before, then what the run wrote,
    which is at least the 24 bytes of chunk shape and grid origin. *)
Lemma fulloctree_manifest_after_run (mesh : Mesh) (num_lods : Z)
    (segment_id directory : string) (bits compression_level : Z)
    (mesh_subdirectory : string) :
  bits = 10 ∨ bits = 16 → vertices mesh ≠ [] →
  ∃ written : list byte,
    (24 <= length written)%nat
    ∧ ∀ fs,
        files (run_on (fulloctree_decomposition_mesh mesh num_lods segment_id
                         directory bits compression_level mesh_subdirectory)
                      fs)
        !! manifest_filename_of (os_path_join directory mesh_subdirectory)
                                segment_id
        = Some (default []
                  (files fs
                   !! manifest_filename_of
                        (os_path_join directory mesh_subdirectory) segment_id)
                ++ written).
Proof.
  intros Hbits Hvs.
  destruct (fulloctree_decomposition_mesh_proceeds mesh num_lods segment_id
              directory bits compression_level mesh_subdirectory Hbits Hvs)
    as (maxv & minv & _ & _ & ->).
  destruct (write_files_events (clean_mesh mesh) num_lods segment_id directory
              mesh_subdirectory
              (vmap (fun c => fdiv c (of_Z num_lods)) (vzip fsub maxv minv))
              minv
              (fun fragment_filename _ =>
                 Ok (fulloctree_cell fragment_filename bits compression_level)))
    as (rest & Hevs & Hrest).
  { intros i body mesh_z c [= <-]. apply fulloctree_cell_writes. }
  set (m := manifest_filename_of (os_path_join directory mesh_subdirectory)
                                 segment_id) in *.
  set (f := fragment_filename_of (os_path_join directory mesh_subdirectory)
                                 segment_id) in *.
  eexists. split; [|intros fs; unfold run_on; rewrite Hevs;
                    apply exec_events_open_append].
  - simpl. rewrite !String.eqb_refl. simpl.
    rewrite !length_app, !f32s_vlist_length. lia.
  - constructor; [done|]. constructor; [done|].
    eapply Forall_impl; [exact Hrest|].
    intros e [He | ->]; [by destruct e|].
    intros [= Heq]. symmetry in Heq.
    by apply manifest_fragment_distinct in Heq.
Qed.

(** C4, what the code does instead. With an accepted width and a mesh
    with at least one vertex, a second run with the same arguments
    does not leave the manifest as the first run left it: the manifest
    is opened for appending, so the second run appends everything it
    writes after what the first run wrote. *)
Theorem rerun_appends_to_manifest (mesh : Mesh) (num_lods : Z)
    (segment_id directory : string) (bits compression_level : Z)
    (mesh_subdirectory : string) (fs : FS) :
  bits = 10 ∨ bits = 16 → vertices mesh ≠ [] →
  let run :=
    fulloctree_decomposition_mesh mesh num_lods segment_id directory bits
      compression_level mesh_subdirectory in
  let manifest_path :=
    manifest_filename_of (os_path_join directory mesh_subdirectory)
                         segment_id in
  ∃ before written : list byte,
    written ≠ []
    ∧ files (run_on run fs) !! manifest_path = Some (before ++ written)
    ∧ files (run_on run (run_on run fs)) !! manifest_path
      = Some (before ++ written ++ written)
    ∧ files (run_on run (run_on run fs)) !! manifest_path
      ≠ files (run_on run fs) !! manifest_path.
Proof.
  intros Hbits Hvs run manifest_path.
  destruct (fulloctree_manifest_after_run mesh num_lods segment_id directory
              bits compression_level mesh_subdirectory Hbits Hvs)
    as (written & Hlen & Hrun).
  fold run manifest_path in Hrun.
  exists (default [] (files fs !! manifest_path)), written.
  assert (written ≠ []) as Hne by (intros ->; simpl in Hlen; lia).
  split; [done|]. split; [apply Hrun|].
  assert (files (run_on run (run_on run fs)) !! manifest_path
          = Some (default [] (files fs !! manifest_path) ++ written ++ written))
    as H2.
  { rewrite (Hrun (run_on run fs)), (Hrun fs). simpl. by rewrite app_assoc. }
  split; [done|]. rewrite H2, (Hrun fs). intros [= Heq].
  apply (f_equal length) in Heq. rewrite !length_app in Heq.
  destruct written; [done|]. simpl in Heq. lia.
Qed.

(** C8, as the code has it. Nothing checks the face count. For an
    accepted width and a mesh with at least one vertex and no face
    left after cleaning, the run begins by creating the directory,
    opening the manifest and writing the 24 bytes of chunk shape and
    grid origin, before the simplifier is called for the first time;
    whatever happens afterwards, the manifest file exists after the
    run and holds at least these bytes. *)
Theorem zero_faces_manifest_created (mesh : Mesh) (num_lods : Z)
    (segment_id directory : string) (bits compression_level : Z)
    (mesh_subdirectory : string) :
  bits = 10 ∨ bits = 16 → vertices mesh ≠ [] →
  faces (clean_mesh mesh) = [] →
  let run :=
    fulloctree_decomposition_mesh mesh num_lods segment_id directory bits
      compression_level mesh_subdirectory in
  let mesh_dir := os_path_join directory mesh_subdirectory in
  let manifest_path := manifest_filename_of mesh_dir segment_id in
  (∃ chunk_shape grid_origin rest,
     events run
     = EMakedirs mesh_dir
       :: EOpen manifest_path AppendBinary
       :: EWrite manifest_path (f32s (vlist chunk_shape))
       :: EWrite manifest_path (f32s (vlist grid_origin))
       :: rest)
  ∧ ∀ fs, ∃ content,
      files (run_on run fs) !! manifest_path = Some content
      ∧ (24 <= length content)%nat.
Proof.
  intros Hbits Hvs _ run mesh_dir manifest_path. split.
  - destruct (fulloctree_decomposition_mesh_proceeds mesh num_lods segment_id
                directory bits compression_level mesh_subdirectory Hbits Hvs)
      as (maxv & minv & _ & _ & Hrun).
    unfold run. rewrite Hrun.
    destruct (write_files_events (clean_mesh mesh) num_lods segment_id
                directory mesh_subdirectory
                (vmap (fun c => fdiv c (of_Z num_lods)) (vzip fsub maxv minv))
                minv
                (fun fragment_filename _ =>
                   Ok (fulloctree_cell fragment_filename bits
                                       compression_level)))
      as (rest & Hevs & _).
    { intros i body mesh_z c [= <-]. apply fulloctree_cell_writes. }
    by eexists _, _, rest.
  - intros fs.
    destruct (fulloctree_manifest_after_run mesh num_lods segment_id directory
                bits compression_level mesh_subdirectory Hbits Hvs)
      as (written & Hlen & Hrun).
    eexists. split; [apply Hrun|]. rewrite length_app. lia.
Qed.

End FullOctreeFiles.

Lemma rerun_appends_to_manifest_witness :
  let run :=
    fulloctree_decomposition_mesh (H := StandIn.collaborators)
      StandIn.diagonal_mesh 2 "7" "out" 10 5 "meshdir" in
  let manifest_path :=
    manifest_filename_of (os_path_join "out" "meshdir") "7" in
  ∃ before written : list byte,
    written ≠ []
    ∧ files (run_on run empty_fs) !! manifest_path = Some (before ++ written)
    ∧ files (run_on run (run_on run empty_fs)) !! manifest_path
      = Some (before ++ written ++ written)
    ∧ files (run_on run (run_on run empty_fs)) !! manifest_path
      ≠ files (run_on run empty_fs) !! manifest_path.
Proof.
  apply (rerun_appends_to_manifest (H := StandIn.collaborators)
           StandIn.diagonal_mesh 2 "7" "out" 10 5 "meshdir" empty_fs).
  - by left.
  - discriminate.
Defined.

Lemma zero_faces_manifest_created_witness :
  let run :=
    fulloctree_decomposition_mesh (H := StandIn.collaborators)
      StandIn.diagonal_mesh 1 "7" "out" 16 5 "meshdir" in
  let mesh_dir := os_path_join "out" "meshdir" in
  let manifest_path := manifest_filename_of mesh_dir "7" in
  (∃ chunk_shape grid_origin rest,
     events run
     = EMakedirs mesh_dir
       :: EOpen manifest_path AppendBinary
       :: EWrite manifest_path
            (f32s (H := StandIn.collaborators) (vlist chunk_shape))
       :: EWrite manifest_path
            (f32s (H := StandIn.collaborators) (vlist grid_origin))
       :: rest)
  ∧ ∀ fs, ∃ content,
      files (run_on run fs) !! manifest_path = Some content
      ∧ (24 <= length content)%nat.
Proof.
  apply (zero_faces_manifest_created (H := StandIn.collaborators)
           StandIn.diagonal_mesh 1 "7" "out" 16 5 "meshdir").
  - by right.
  - discriminate.
  - reflexivity.
Defined.

(** C8, counterexample. A mesh of three vertices and no face, one
    level, 16 bits: both files exist after the run, the manifest holds
    64 bytes, and with a simplifier that accepts a target of 0 faces
    the run does not raise at all. *)
Lemma zero_faces_raise_before_files_counterexample :
  ∃ evs manifest fragment,
    faces (clean_mesh (H := StandIn.collaborators) StandIn.diagonal_mesh) = []
    ∧ fulloctree_decomposition_mesh (H := StandIn.collaborators)
        StandIn.diagonal_mesh 1 "7" "out" 16 5 "meshdir" = (evs, Ok tt)
    ∧ files (exec_events evs empty_fs) !! "out/meshdir/7.index"%string
      = Some manifest
    ∧ length manifest = 64%nat
    ∧ files (exec_events evs empty_fs) !! "out/meshdir/7"%string
      = Some fragment.
Proof.
  eexists _, _, _. split; [reflexivity|].
  split; [vm_compute; reflexivity|].
  split; [vm_compute; reflexivity|].
  split; vm_compute; reflexivity.
Qed.

(** * Further properties of the code *)

(** ** Quantize *)

Section QuantizeFurther.
Context `{Collaborators}.


End QuantizeFurther.

(** ** cmp_zorder *)












(** ** Integers as bytes *)




Lemma length_le_u32s (ns : list Z) :
  length (le_u32s ns) = (4 * length ns)%nat.
Proof.
  unfold le_u32s. rewrite (flat_map_constant_length (c := 4%nat)); [lia|].
  done.
Qed.

(** ** encode_vertices_faces and decode_buffer *)

Lemma reshape3_flatten3 {A} (rows : list (A * A * A)) :
  reshape3 (flatten3 rows) = Ok rows.
Proof.
  induction rows as [|[[a b] c] rows IH]; simpl; [done|].
  by rewrite IH.
Qed.



Section Codec.
Context `{Collaborators}.




End Codec.


(** ** The order of the grid *)








Section GridOrder.
Context `{Collaborators}.


End GridOrder.

(** ** Byte accounting *)


Section Accounting.
Context `{Collaborators}.



End Accounting.

(** ** What a run touches *)


Section Touches.
Context `{Collaborators}.






End Touches.



